(** * Masked multi-head attention (folx/experimental/pallas/mha.py)

    A shallow embedding of the dispatcher [mha], of the dense kernel
    [reference_mha_kernel] and of the per-tile device kernel [mha_kernel],
    together with the properties of the attention core.

    Scalars are modelled by the real numbers: the arithmetic of the two
    kernels (dot products, the sentinel, the max-subtracted softmax) is
    written out as the source has it, with exact operations in place of the
    rounded ones.  Arrays are total index functions together with their
    shape; only the indices below the shape are meaningful.  The real
    numbers stand for an element type that holds the sentinel; module
    [Special] embeds the kernels once more, over scalars with infinities
    and NaN, for what depends on the element type. *)

From Stdlib Require Import ZArith List String Bool Arith Lia Reals Lra.
From Stdlib Require Import Permutation FunctionalExtensionality.
Import ListNotations.

(** ** Errors and the result monad *)

(** The configuration errors of the core (spec section 7): the [ValueError]
    of [mha] for an unknown kernel name, and the error of the tiling planner
    for a query block length (second field) that does not divide the
    sequence length (first field).  [InvalidBlock] stands for the launch
    refusing a block length that is not positive, [StoreDTypeError] for jax
    refusing the store of the device kernel into an output reference of
    another element type than the stored value. *)
Inductive error : Type :=
| UnknownKernel (kernel : string)
| BlockLenError (seq_len q_block_len : Z)
| InvalidBlock (q_block_len : Z)
| StoreDTypeError.

Inductive result (A : Type) : Type :=
| Ok (a : A)
| Err (e : error).

Arguments Ok {A} a.
Arguments Err {A} e.

Definition bind {A B : Type} (r : result A) (f : A -> result B) : result B :=
  match r with
  | Ok a => f a
  | Err e => Err e
  end.

Notation "x <- r ;; k" := (bind r (fun x => k))
  (at level 61, r at next level, right associativity).
Notation "' p <- r ;; k" := (bind r (fun x => let p := x in k))
  (at level 61, p pattern, r at next level, right associativity).

(** ** Sums, maxima and the softmax of a row *)

Module Row.

Local Open Scope R_scope.

(** [sum f n] is [f 0 + ... + f (n-1)], the reduction of a contracted axis. *)
Fixpoint sum (f : nat -> R) (n : nat) : R :=
  match n with
  | O => 0
  | S m => sum f m + f m
  end.

(** [max f n] is the largest of [f 0 .. f (n-1)] (0 on an empty axis, where
    no entry reads it). *)
Fixpoint max (f : nat -> R) (n : nat) : R :=
  match n with
  | O => 0
  | S m => match m with
           | O => f O
           | S _ => Rmax (max f m) (f m)
           end
  end.

(** [jax.nn.softmax] along an axis of length [n]: the entries are shifted by
    the maximum of the row, exponentiated and divided by their sum. *)
Definition softmax (s : nat -> R) (n : nat) (j : nat) : R :=
  let x_max := max s n in
  let unnormalized := fun j' => exp (s j' - x_max) in
  unnormalized j / sum unnormalized n.

End Row.

(** ** Arrays *)

(** The floating-point types of jax and their promotion lattice
    ([jnp.promote_types]) for the operands of a binary operation. *)
Inductive DType : Type := float16 | bfloat16 | float32 | float64.

Definition promote_types (a b : DType) : DType :=
  match a, b with
  | float64, _ | _, float64 => float64
  | float32, _ | _, float32 => float32
  | float16, float16 => float16
  | bfloat16, bfloat16 => bfloat16
  | float16, bfloat16 | bfloat16, float16 => float32
  end.

(** Rank-4 array [(batch, sequence, heads, head_dim)]. *)
Record Tensor4 : Type := mkTensor4 {
  shape : nat * nat * nat * nat;
  dtype : DType;
  data : nat -> nat -> nat -> nat -> R
}.

(** Rank-2 boolean mask [(batch, sequence)]. *)
Record Mask2 : Type := mkMask2 {
  mask_shape : nat * nat;
  mask_data : nat -> nat -> bool
}.

(** The sentinel that replaces the score of an invalid pair, in an element
    type that holds it (float16 does not, see [Special.sentinel_of]). *)
Definition SENTINEL : R := (- 1e20)%R.

(** ** Tiling planner, grid and tile descriptors

    [compute_q_and_kv_block_len], [create_grid] and the two block-spec
    builders live in the package's [utils] module, which is not part of the
    source tree at hand; they are modelled from the spec. *)

(** Modelled from the spec: [utils.compute_q_and_kv_block_len] (spec 4.1).
    Without an override the query block is the whole sequence; the
    key/value block always is; the plan fails when the sequence length is
    not a multiple of the query block length.  [%] of Python is [Z.modulo]
    for a divisor other than 0; for the divisor 0 [Z.modulo] is the
    dividend, so that a block length of 0 is refused for every non-empty
    sequence. *)
Definition compute_q_and_kv_block_len (seq_len : Z) (q_block_len : option Z)
  : result (Z * Z) :=
  let q_block_len := match q_block_len with
                     | None => seq_len
                     | Some n => n
                     end in
  let kv_block_len := seq_len in
  if (seq_len mod q_block_len =? 0)%Z
  then Ok (q_block_len, kv_block_len)
  else Err (BlockLenError seq_len q_block_len).

(** One coordinate of the execution grid: a batch element, a query block
    and a head.  [mha_kernel] reads its query-block index with
    [program_id(1)], which fixes the axis of that coordinate: axis 0 is the
    batch, axis 1 the query block, axis 2 the head. *)
Record GridCoord : Type := mkCoord {
  pid_batch : nat;
  pid_q_block : nat;
  pid_head : nat
}.

Definition program_id (c : GridCoord) (axis : nat) : nat :=
  match axis with
  | 0 => pid_batch c
  | 1 => pid_q_block c
  | _ => pid_head c
  end.

(** Modelled from the spec: [utils.create_grid] (spec 3 and 4.1).  The
    extents of the grid are the batch length, the number of heads and
    [seq_len / q_block_len] query blocks; they are listed in the order of
    the axes above. *)
Definition create_grid (batch_len seq_len num_heads q_block_len : nat)
  : nat * nat * nat :=
  (batch_len, seq_len / q_block_len, num_heads).

(** Every coordinate of a grid, each exactly once. *)
Definition grid_coords (grid : nat * nat * nat) : list GridCoord :=
  let '(nb, nq, nh) := grid in
  flat_map (fun b =>
    flat_map (fun qi =>
      map (fun h => mkCoord b qi h) (seq 0 nh)) (seq 0 nq)) (seq 0 nb).

(** A tile descriptor: the length of the slice of the sequence axis, the
    length of the feature axis, and the offset of the slice as a function of
    the grid coordinate (batch and head are fixed by the coordinate). *)
Record BlockSpec : Type := mkBlockSpec {
  block_rows : nat;
  block_cols : nat;
  row_offset : GridCoord -> nat
}.

(** Modelled from the spec: [utils.get_value_or_laplacian_block_spec]
    (spec 4.2).  A block as long as the sequence is the whole sequence (the
    key and value descriptors); a shorter one is the slice at the query-block
    coordinate times the block length (the query and output descriptors). *)
Definition get_value_or_laplacian_block_spec
  (seq_len head_len block_len : nat) : BlockSpec :=
  {| block_rows := block_len;
     block_cols := head_len;
     row_offset := fun c =>
       if block_len =? seq_len then 0 else pid_q_block c * block_len |}.

(** Modelled from the spec: [utils.get_mask_block_spec] (spec 4.2): the full
    mask row of the batch element, whatever the head and query block. *)
Record MaskSpec : Type := mkMaskSpec { mask_block_len : nat }.

Definition get_mask_block_spec (seq_len q_block_len : nat) : MaskSpec :=
  {| mask_block_len := seq_len |}.

(** A tile of a rank-4 array and a tile of the mask, as a kernel instance
    sees them. *)
Record Block2 : Type := mkBlock2 {
  rows : nat;
  cols : nat;
  at2 : nat -> nat -> R
}.

Record Block1 : Type := mkBlock1 {
  len : nat;
  at1 : nat -> bool
}.

Definition load_block (spec : BlockSpec) (t : Tensor4) (c : GridCoord) : Block2 :=
  {| rows := block_rows spec;
     cols := block_cols spec;
     at2 := fun r a => data t (pid_batch c) (row_offset spec c + r) (pid_head c) a |}.

Definition load_mask_block (spec : MaskSpec) (m : Mask2) (c : GridCoord) : Block1 :=
  {| len := mask_block_len spec;
     at1 := fun j => mask_data m (pid_batch c) j |}.

(** Does the tile of [spec] at coordinate [c] hold the entry [(b, i, h)]? *)
Definition in_block (spec : BlockSpec) (c : GridCoord) (b i h : nat) : bool :=
  (b =? pid_batch c) && (h =? pid_head c) &&
  (row_offset spec c <=? i) && (i <? row_offset spec c + block_rows spec).

(** Writing a tile back into the array it is a view of. *)
Definition store_block (spec : BlockSpec) (t : Tensor4) (c : GridCoord)
  (tile : Block2) : Tensor4 :=
  {| shape := shape t;
     dtype := dtype t;
     data := fun b i h a =>
       if in_block spec c b i h
       then at2 tile (i - row_offset spec c) a
       else data t b i h a |}.

(** ** The device kernel *)

(** The references a kernel instance is handed: four inputs, one output. *)
Record Refs : Type := mkRefs {
  q_ref : Block2;
  k_ref : Block2;
  v_ref : Block2;
  mask_ref : Block1;
  o_ref : Block2
}.

Section Kernel.

Local Open Scope R_scope.

(** [pl_dot(x, y, trans_b=True)] and [pl_dot(x, y)], contracting [n] entries. *)
Definition dot_trans_b (n : nat) (x y : nat -> nat -> R) (i j : nat) : R :=
  Row.sum (fun a => x i a * y j a) n.

Definition dot (n : nat) (x y : nat -> nat -> R) (i a : nat) : R :=
  Row.sum (fun j => x i j * y j a) n.

(** [x or d] of Python on an optional length: [None] and [0] are falsy. *)
Definition or_default (x : option nat) (d : nat) : nat :=
  match x with
  | None | Some O => d
  | Some n => n
  end.

(** [mha_kernel]: the instance at the grid coordinate whose ids are [pid].
    [mha_kernel_q_mask] and [mha_kernel_s] are its locals [q_mask] and [s]
    (the scores handed to the softmax). *)
Definition mha_kernel_q_mask (pid : nat -> nat) (q_block_len : option nat)
  (r : Refs) : nat -> bool :=
  let q_idx := match q_block_len with
               | None => O
               | Some _ => pid 1%nat
               end in
  let q_block_len := or_default q_block_len (rows (q_ref r)) in
  fun i => at1 (mask_ref r) (q_idx * q_block_len + i)%nat.

Definition mha_kernel_s (pid : nat -> nat) (q_block_len : option nat)
  (r : Refs) : nat -> nat -> R :=
  let kv_mask := at1 (mask_ref r) in
  let q_mask := mha_kernel_q_mask pid q_block_len r in
  let square_mask := fun i j => q_mask i && kv_mask j in
  let q := fun i a => if q_mask i then at2 (q_ref r) i a else 0 in
  let k := fun j a => if kv_mask j then at2 (k_ref r) j a else 0 in
  fun i j =>
    if square_mask i j
    then dot_trans_b (cols (q_ref r)) q k i j
    else SENTINEL.

Definition mha_kernel (pid : nat -> nat) (q_block_len : option nat) (r : Refs)
  : Refs :=
  let kv_mask := at1 (mask_ref r) in
  let v := fun j a => if kv_mask j then at2 (v_ref r) j a else 0 in
  let s := mha_kernel_s pid q_block_len r in
  let p := fun i => Row.softmax (s i) (rows (k_ref r)) in
  let o := dot (rows (k_ref r)) p v in
  {| q_ref := q_ref r;
     k_ref := k_ref r;
     v_ref := v_ref r;
     mask_ref := mask_ref r;
     o_ref := {| rows := rows (o_ref r); cols := cols (o_ref r); at2 := o |} |}.

End Kernel.

(** ** The launch of the grid

    [pallas_call] belongs to jax; its effect is modelled from the spec
    (section 9): one run of the kernel body per grid coordinate, on the tiles
    the descriptors select, the output tile written back into the freshly
    allocated output array. *)

Record PallasCall : Type := mkPallasCall {
  pc_body : (nat -> nat) -> Refs -> Refs;
  pc_grid : nat * nat * nat;
  pc_q_spec : BlockSpec;
  pc_k_spec : BlockSpec;
  pc_v_spec : BlockSpec;
  pc_mask_spec : MaskSpec;
  pc_out_spec : BlockSpec;
  pc_out_shape : nat * nat * nat * nat;
  pc_out_dtype : DType
}.

(** The references of the instance at [c]: views of the four inputs and of
    the output array [o]. *)
Definition instance_refs (pc : PallasCall) (q k v : Tensor4) (mask : Mask2)
  (o : Tensor4) (c : GridCoord) : Refs :=
  {| q_ref := load_block (pc_q_spec pc) q c;
     k_ref := load_block (pc_k_spec pc) k c;
     v_ref := load_block (pc_v_spec pc) v c;
     mask_ref := load_mask_block (pc_mask_spec pc) mask c;
     o_ref := load_block (pc_out_spec pc) o c |}.

Definition run_instance (pc : PallasCall) (q k v : Tensor4) (mask : Mask2)
  (o : Tensor4) (c : GridCoord) : Tensor4 :=
  let refs := instance_refs pc q k v mask o c in
  store_block (pc_out_spec pc) o c (o_ref (pc_body pc (program_id c) refs)).

(** The freshly allocated output array of a launch. *)
Definition empty_output (pc : PallasCall) : Tensor4 :=
  {| shape := pc_out_shape pc;
     dtype := pc_out_dtype pc;
     data := fun _ _ _ _ => 0%R |}.

Definition pallas_call (pc : PallasCall) (q k v : Tensor4) (mask : Mask2)
  : Tensor4 :=
  fold_left (run_instance pc q k v mask) (grid_coords (pc_grid pc))
    (empty_output pc).

(** ** The reference kernel *)

Section Reference.

Local Open Scope R_scope.

(** [reference_mha_kernel].  The two [einsum]s contract the feature axis of
    [q] and the sequence axis of [k]; the shape and the type of the result
    are those the operands give it.  The operands are taken to be of
    agreeing shapes (the shape checks of jax are not part of the model);
    [interpret] is deleted on entry.  [reference_mha_s] is the local [s]
    after the [where]: the scores handed to the softmax.  The real
    numbers stand for scores of a type that holds the sentinel; for float16
    see [Special.reference_mha_kernel]. *)
Definition reference_mha_s (q k : Tensor4) (mask : Mask2)
  : nat -> nat -> nat -> nat -> R :=
  let '(_, _, _, head_len) := shape q in
  let square_mask := fun b i j => mask_data mask b j && mask_data mask b i in
  let s := fun b i h j => Row.sum (fun a => data q b i h a * data k b j h a) head_len in
  fun b i h j => if square_mask b i j then s b i h j else SENTINEL.

Definition reference_mha_kernel (q k v : Tensor4) (mask : Mask2)
  (interpret : bool) : Tensor4 :=
  let '(batch_len, q_len, num_heads, _) := shape q in
  let '(_, kv_len, _, _) := shape k in
  let '(_, _, _, v_head_len) := shape v in
  let s := reference_mha_s q k mask in
  let p := fun b i h => Row.softmax (s b i h) kv_len in
  let o := fun b i h a => Row.sum (fun j => p b i h j * data v b j h a) kv_len in
  {| shape := (batch_len, q_len, num_heads, v_head_len);
     dtype := promote_types (promote_types (dtype q) (dtype k)) (dtype v);
     data := o |}.

End Reference.

(** ** The dispatcher *)

(** The launch [mha] configures for the device kernel. *)
Definition mha_pallas_call (batch_len seq_len num_heads head_len : nat)
  (q_block_len kv_block_len : nat) (out_dtype : DType) : PallasCall :=
  {| pc_body := fun pid => mha_kernel pid (Some q_block_len);
     pc_grid := create_grid batch_len seq_len num_heads q_block_len;
     pc_q_spec := get_value_or_laplacian_block_spec seq_len head_len q_block_len;
     pc_k_spec := get_value_or_laplacian_block_spec seq_len head_len kv_block_len;
     pc_v_spec := get_value_or_laplacian_block_spec seq_len head_len kv_block_len;
     pc_mask_spec := get_mask_block_spec seq_len q_block_len;
     pc_out_spec := get_value_or_laplacian_block_spec seq_len head_len q_block_len;
     pc_out_shape := (batch_len, seq_len, num_heads, head_len);
     pc_out_dtype := out_dtype |}.

(** [mha].  [input_mask] may be any value: it is deleted on entry.  A block
    length that is not positive describes no tile, and the launch refuses
    it.  The device kernel stores the result of [pl_dot], which is of type
    float32 whatever its operands are, into the output reference, which is
    of the type of [q] (line 115); jax refuses that store for a [q] of any
    other type when it traces the kernel, so that the launch fails before
    an instance runs.  The arrays are taken to be of agreeing shapes, and
    [k] and [v] of the type of [q] on the device path: what jax does with
    operands that do not fit each other is not part of the model. *)
Definition mha {A : Type} (q k v : Tensor4) (mask : Mask2) (input_mask : A)
  (kernel : string) (interpret : bool) (q_block_len : option Z)
  (num_warps num_stages : Z) : result Tensor4 :=
  let '(batch_len, seq_len, num_heads, head_len) := shape q in
  '(q_block_len, kv_block_len) <-
    compute_q_and_kv_block_len (Z.of_nat seq_len) q_block_len ;;
  kernel_fn <-
    (if String.eqb kernel "pallas" then
       if (0 <? q_block_len)%Z then
         match dtype q with
         | float32 =>
             Ok (pallas_call
                   (mha_pallas_call batch_len seq_len num_heads head_len
                      (Z.to_nat q_block_len) (Z.to_nat kv_block_len) (dtype q)))
         | _ => Err StoreDTypeError
         end
       else Err (InvalidBlock q_block_len)
     else if String.eqb kernel "reference" then
       Ok (fun q k v mask => reference_mha_kernel q k v mask false)
     else Err (UnknownKernel kernel)) ;;
  Ok (kernel_fn q k v mask).

(** ** Entry-wise descriptions of the two kernels

    The output of either backend, entry by entry, at the global position
    [(b, i, h, a)]; the lemmas of section "Properties" show that the kernels
    above compute them. *)

Section Entries.

Local Open Scope R_scope.

Variables (q k v : Tensor4) (mask : Mask2).

(** The score of the pair [(i, j)] after masking, and the output entry, of
    the reference kernel; [head_len] and [kv_len] are the contracted
    extents. *)
Definition reference_score (head_len : nat) (b i h j : nat) : R :=
  if mask_data mask b j && mask_data mask b i
  then Row.sum (fun a => data q b i h a * data k b j h a) head_len
  else SENTINEL.

Definition reference_entry (head_len kv_len : nat) (b i h a : nat) : R :=
  Row.sum (fun j => Row.softmax (reference_score head_len b i h) kv_len j *
                    data v b j h a) kv_len.

(** The same for the device kernel, at the global position [i] of the
    sequence: rows at invalid positions are zeroed before the products. *)
Definition zeroed (t : Tensor4) (b i h a : nat) : R :=
  if mask_data mask b i then data t b i h a else 0.

Definition tiled_score (head_len : nat) (b i h j : nat) : R :=
  if mask_data mask b i && mask_data mask b j
  then Row.sum (fun a => zeroed q b i h a * zeroed k b j h a) head_len
  else SENTINEL.

Definition tiled_entry (head_len kv_len : nat) (b i h a : nat) : R :=
  Row.sum (fun j => Row.softmax (tiled_score head_len b i h) kv_len j *
                    zeroed v b j h a) kv_len.

(** The score of a pair as the contract words it: the dot product of the
    query row and the key row when both positions are valid, the sentinel
    otherwise. *)
Definition masked_dot (head_len : nat) (b i h j : nat) : R :=
  if mask_data mask b i && mask_data mask b j
  then Row.sum (fun a => data q b i h a * data k b j h a) head_len
  else SENTINEL.

(** Two arrays that differ at most in the rows of position [j] of batch
    element [b]. *)
Definition differ_only_at (t t' : Tensor4) (b j : nat) : Prop :=
  forall b' j' h a, b' <> b \/ j' <> j -> data t b' j' h a = data t' b' j' h a.

(** What the instance at [c] of the launch [pc] writes at the entry
    [(b, i, h, a)] it covers. *)
Definition instance_tile (pc : PallasCall) (c : GridCoord) (b i h a : nat) : R :=
  at2 (o_ref (pc_body pc (program_id c)
                (instance_refs pc q k v mask (empty_output pc) c)))
      (i - row_offset (pc_out_spec pc) c) a.

End Entries.

(** ** Agreement of outputs *)

(** [x] is within the relative tolerance [tol] of [y]. *)
Definition close_to (tol x y : R) : Prop :=
  (Rabs (x - y) <= tol * Rabs y)%R.

(** The entries an array has. *)
Definition in_shape (t : Tensor4) (b i h a : nat) : Prop :=
  let '(batch_len, seq_len, num_heads, head_len) := shape t in
  b < batch_len /\ i < seq_len /\ h < num_heads /\ a < head_len.

(** Backend equivalence on one input: whenever both backends return, every
    entry of the tiled output is within [tol] of the reference output. *)
Definition backends_agree (tol : R) (q k v : Tensor4) (mask : Mask2)
  (q_block_len : option Z) : Prop :=
  forall o o',
    mha q k v mask tt "pallas" false q_block_len 2 2 = Ok o ->
    mha q k v mask tt "reference" false q_block_len 2 2 = Ok o' ->
    forall b i h a, in_shape o' b i h a ->
      close_to tol (data o b i h a) (data o' b i h a).

(** Two results of the entry point agree at an entry: the same failure, or
    two outputs with the same value there. *)
Definition agree_at (r r' : result Tensor4) (b i h a : nat) : Prop :=
  match r, r' with
  | Ok o, Ok o' => data o b i h a = data o' b i h a
  | Err e, Err e' => e = e'
  | _, _ => False
  end.

(** ** A small input

    One batch element, two positions of which the second is padding, one
    head, one feature. *)
Definition ex_mask : Mask2 :=
  {| mask_shape := (1, 2); mask_data := fun _ j => j =? 0 |}.

Definition ex_q : Tensor4 :=
  {| shape := (1, 2, 1, 1); dtype := float32; data := fun _ _ _ _ => 1%R |}.

Definition ex_k : Tensor4 :=
  {| shape := (1, 2, 1, 1); dtype := float32; data := fun _ _ _ _ => 1%R |}.

Definition ex_v : Tensor4 :=
  {| shape := (1, 2, 1, 1); dtype := float32;
     data := fun _ j _ _ => if j =? 0 then 1%R else 5%R |}.

(** [t] with every entry of the rows at position [j] of batch element [b]
    set to [x]. *)
Definition set_row (t : Tensor4) (b j : nat) (x : R) : Tensor4 :=
  {| shape := shape t;
     dtype := dtype t;
     data := fun b' j' h a =>
       if (b' =? b) && (j' =? j) then x else data t b' j' h a |}.

(** The same keys and values but for the rows of the padding position. *)
Definition ex_k' : Tensor4 := set_row ex_k 0 1 9%R.

Definition ex_v' : Tensor4 := set_row ex_v 0 1 7%R.

(** The same queries but for the rows of the padding position, the values
    with zeros at the padding position, and a mask without padding. *)
Definition ex_q' : Tensor4 := set_row ex_q 0 1 3%R.

Definition ex_v0 : Tensor4 := set_row ex_v 0 1 0%R.

Definition ex_full_mask : Mask2 :=
  {| mask_shape := (1, 2); mask_data := fun _ _ => true |}.

(** ** Combinations of value arrays *)

(** The entry-wise combination [alpha * t + beta * t'], of the shape and
    type of [t]. *)
Definition lin_comb (alpha beta : R) (t t' : Tensor4) : Tensor4 :=
  {| shape := shape t;
     dtype := dtype t;
     data := fun b i h a => (alpha * data t b i h a + beta * data t' b i h a)%R |}.

(** The query tile length the planner works with: the override, or the
    sequence length without one. *)
Definition chosen_block_len (seq_len : nat) (q_block_len : option Z) : Z :=
  match q_block_len with
  | None => Z.of_nat seq_len
  | Some n => n
  end.

(** ** Special values

    The embedding above computes with real numbers and cannot tell a NaN or
    an infinity from a number.  Where that matters (the sentinel in an
    element type too narrow for it, a softmax without a finite maximum) the
    kernels are embedded a second time, over scalars with the special values
    of floating-point arithmetic.  The arrays given to the kernels hold
    finite numbers; operations on finite numbers are exact, except that the
    exponential underflows. *)

Module Special.

Local Open Scope R_scope.

Inductive xreal : Type :=
| Fin (x : R)
| PInf
| NInf
| NaN.

Definition is_finite (x : xreal) : Prop := exists r, x = Fin r.

Definition neg (x : xreal) : xreal :=
  match x with
  | Fin r => Fin (- r)
  | PInf => NInf
  | NInf => PInf
  | NaN => NaN
  end.

Definition add (x y : xreal) : xreal :=
  match x, y with
  | NaN, _ | _, NaN => NaN
  | PInf, NInf | NInf, PInf => NaN
  | PInf, _ | _, PInf => PInf
  | NInf, _ | _, NInf => NInf
  | Fin a, Fin b => Fin (a + b)
  end.

Definition sub (x y : xreal) : xreal := add x (neg y).

(** An infinity of sign [positive] times or over the finite [r]. *)
Definition scaled_inf (positive : bool) (r : R) : xreal :=
  match total_order_T r 0 with
  | inleft (left _) => if positive then NInf else PInf
  | inleft (right _) => NaN
  | inright _ => if positive then PInf else NInf
  end.

Definition mul (x y : xreal) : xreal :=
  match x, y with
  | NaN, _ | _, NaN => NaN
  | Fin a, Fin b => Fin (a * b)
  | PInf, Fin r | Fin r, PInf => scaled_inf true r
  | NInf, Fin r | Fin r, NInf => scaled_inf false r
  | PInf, PInf | NInf, NInf => PInf
  | PInf, NInf | NInf, PInf => NInf
  end.

Definition div (x y : xreal) : xreal :=
  match x, y with
  | NaN, _ | _, NaN => NaN
  | Fin a, Fin b =>
      match Req_EM_T b 0 with
      | left _ => scaled_inf true a
      | right _ => Fin (a / b)
      end
  | Fin _, PInf | Fin _, NInf => Fin 0
  | PInf, Fin r => if Rlt_dec r 0 then NInf else PInf
  | NInf, Fin r => if Rlt_dec r 0 then PInf else NInf
  | PInf, PInf | PInf, NInf | NInf, PInf | NInf, NInf => NaN
  end.

(** Below [EXP_UNDERFLOW] the exponential is 0 in every floating-point type
    (the smallest positive float64 is about [exp (-745)]). *)
Definition EXP_UNDERFLOW : R := - 1000.

Definition exp (x : xreal) : xreal :=
  match x with
  | NaN => NaN
  | PInf => PInf
  | NInf => Fin 0
  | Fin r => if Rlt_dec r EXP_UNDERFLOW then Fin 0 else Fin (Rtrigo_def.exp r)
  end.

(** The maximum of [jnp.max], which propagates NaN. *)
Definition max (x y : xreal) : xreal :=
  match x, y with
  | NaN, _ | _, NaN => NaN
  | PInf, _ | _, PInf => PInf
  | NInf, z | z, NInf => z
  | Fin a, Fin b => Fin (Rmax a b)
  end.

Fixpoint sum (f : nat -> xreal) (n : nat) : xreal :=
  match n with
  | O => Fin 0
  | S m => add (sum f m) (f m)
  end.

Fixpoint maxn (f : nat -> xreal) (n : nat) : xreal :=
  match n with
  | O => NInf
  | S m => max (maxn f m) (f m)
  end.

(** [jax.nn.softmax] along an axis of length [n]. *)
Definition softmax (s : nat -> xreal) (n : nat) (j : nat) : xreal :=
  let x_max := maxn s n in
  let unnormalized := fun j' => exp (sub (s j') x_max) in
  div (unnormalized j) (sum unnormalized n).

(** The literal [-1e20] in an array of element type [dt]: float16, whose
    largest number is 65504, holds it as minus infinity. *)
Definition sentinel_of (dt : DType) : xreal :=
  match dt with
  | float16 => NInf
  | bfloat16 | float32 | float64 => Fin SENTINEL
  end.

(** [reference_mha_kernel] with special values: the local [s] after the
    [where], of the type the first [einsum] gives it, and the output. *)
Definition reference_mha_s (q k : Tensor4) (mask : Mask2)
  : nat -> nat -> nat -> nat -> xreal :=
  let '(_, _, _, head_len) := shape q in
  let s_dtype := promote_types (dtype q) (dtype k) in
  let square_mask := fun b i j => mask_data mask b j && mask_data mask b i in
  let s := fun b i h j => Row.sum (fun a => data q b i h a * data k b j h a) head_len in
  fun b i h j => if square_mask b i j then Fin (s b i h j) else sentinel_of s_dtype.

Definition reference_mha_kernel (q k v : Tensor4) (mask : Mask2)
  (interpret : bool) : nat -> nat -> nat -> nat -> xreal :=
  let '(_, kv_len, _, _) := shape k in
  let s := reference_mha_s q k mask in
  let p := fun b i h => softmax (s b i h) kv_len in
  fun b i h a => sum (fun j => mul (p b i h j) (Fin (data v b j h a))) kv_len.

(** [mha_kernel] with special values: the local [s], which is of type
    float32 as the result of [pl_dot] is, and the local [o], the tile the
    kernel computes and hands to the store. *)
Definition mha_kernel_s (pid : nat -> nat) (q_block_len : option nat)
  (r : Refs) : nat -> nat -> xreal :=
  let kv_mask := at1 (mask_ref r) in
  let q_mask := mha_kernel_q_mask pid q_block_len r in
  let square_mask := fun i j => q_mask i && kv_mask j in
  let q := fun i a => if q_mask i then at2 (q_ref r) i a else 0 in
  let k := fun j a => if kv_mask j then at2 (k_ref r) j a else 0 in
  fun i j =>
    if square_mask i j
    then Fin (dot_trans_b (cols (q_ref r)) q k i j)
    else sentinel_of float32.

Definition mha_kernel (pid : nat -> nat) (q_block_len : option nat) (r : Refs)
  : nat -> nat -> xreal :=
  let kv_mask := at1 (mask_ref r) in
  let v := fun j a => if kv_mask j then at2 (v_ref r) j a else 0 in
  let s := mha_kernel_s pid q_block_len r in
  let p := fun i => softmax (s i) (rows (k_ref r)) in
  fun i a => sum (fun j => mul (p i j) (Fin (v j a))) (rows (k_ref r)).

End Special.

(** ** The launch on mutable references

    [run_instance] keeps of an instance the output tile only.  The launch
    below treats the five references as views of mutable arrays and writes
    each of them back after the instance has run. *)

Record Store : Type := mkStore {
  st_q : Tensor4;
  st_k : Tensor4;
  st_v : Tensor4;
  st_mask : Mask2;
  st_o : Tensor4
}.

Definition store_mask_block (spec : MaskSpec) (m : Mask2) (c : GridCoord)
  (tile : Block1) : Mask2 :=
  {| mask_shape := mask_shape m;
     mask_data := fun b j =>
       if b =? pid_batch c then at1 tile j else mask_data m b j |}.

Definition run_instance_store (pc : PallasCall) (st : Store) (c : GridCoord)
  : Store :=
  let refs := instance_refs pc (st_q st) (st_k st) (st_v st) (st_mask st)
                (st_o st) c in
  let refs' := pc_body pc (program_id c) refs in
  {| st_q := store_block (pc_q_spec pc) (st_q st) c (q_ref refs');
     st_k := store_block (pc_k_spec pc) (st_k st) c (k_ref refs');
     st_v := store_block (pc_v_spec pc) (st_v st) c (v_ref refs');
     st_mask := store_mask_block (pc_mask_spec pc) (st_mask st) c (mask_ref refs');
     st_o := store_block (pc_out_spec pc) (st_o st) c (o_ref refs') |}.

Definition launch_store (pc : PallasCall) (q k v : Tensor4) (mask : Mask2)
  : Store :=
  fold_left (run_instance_store pc) (grid_coords (pc_grid pc))
    {| st_q := q; st_k := k; st_v := v; st_mask := mask;
       st_o := empty_output pc |}.

(** ** Arrays of other element types *)

(** [t] as an array of element type [dt]. *)
Definition with_dtype (dt : DType) (t : Tensor4) : Tensor4 :=
  {| shape := shape t; dtype := dt; data := data t |}.

(** The small input in float16. *)
Definition ex_q16 : Tensor4 := with_dtype float16 ex_q.

Definition ex_k16 : Tensor4 := with_dtype float16 ex_k.

Definition ex_v16 : Tensor4 := with_dtype float16 ex_v.

(** * Properties *)

(** ** Rows: sums and softmax weights *)

Module RowFacts.

Import Row.
Local Open Scope R_scope.

Lemma sum_ext (f g : nat -> R) (n : nat) :
  (forall j, (j < n)%nat -> f j = g j) -> sum f n = sum g n.
Proof.
  induction n as [|n IH]; intros H; simpl.
  - reflexivity.
  - rewrite IH, (H n) by (intros; try apply H; lia). reflexivity.
Qed.

Lemma max_ext (f g : nat -> R) (n : nat) :
  (forall j, (j < n)%nat -> f j = g j) -> max f n = max g n.
Proof.
  induction n as [|n IH]; intros H.
  - reflexivity.
  - destruct n as [|n].
    + simpl. apply H. lia.
    + change (Rmax (max f (S n)) (f (S n)) = Rmax (max g (S n)) (g (S n))).
      rewrite IH, (H (S n)) by (intros; try apply H; lia). reflexivity.
Qed.

Lemma softmax_ext (s s' : nat -> R) (n j : nat) :
  (forall j', (j' < n)%nat -> s j' = s' j') -> (j < n)%nat ->
  softmax s n j = softmax s' n j.
Proof.
  intros H Hj. unfold softmax.
  rewrite (max_ext s s' n H), (H j Hj).
  f_equal. apply sum_ext. intros j' Hj'. now rewrite (H j' Hj').
Qed.

Lemma sum_const (c : R) (n : nat) : sum (fun _ => c) n = INR n * c.
Proof.
  induction n as [|n IH].
  - simpl. lra.
  - rewrite S_INR. simpl. rewrite IH. lra.
Qed.

Lemma sum_scal (c : R) (f : nat -> R) (n : nat) :
  sum (fun j => c * f j) n = c * sum f n.
Proof.
  induction n as [|n IH]; simpl.
  - lra.
  - rewrite IH. lra.
Qed.

Lemma sum_minus (f g : nat -> R) (n : nat) :
  sum f n - sum g n = sum (fun j => f j - g j) n.
Proof.
  induction n as [|n IH]; simpl.
  - lra.
  - rewrite <- IH. lra.
Qed.

Lemma sum_le (f g : nat -> R) (n : nat) :
  (forall j, (j < n)%nat -> f j <= g j) -> sum f n <= sum g n.
Proof.
  induction n as [|n IH]; intros H; simpl.
  - lra.
  - assert (sum f n <= sum g n) by (apply IH; intros; apply H; lia).
    assert (f n <= g n) by (apply H; lia). lra.
Qed.

Lemma sum_nonneg (f : nat -> R) (n : nat) :
  (forall j, (j < n)%nat -> 0 <= f j) -> 0 <= sum f n.
Proof.
  intros H. replace 0 with (sum (fun _ => 0) n).
  - now apply sum_le.
  - rewrite sum_const. lra.
Qed.

Lemma sum_ge_term (f : nat -> R) (n j0 : nat) :
  (forall j, (j < n)%nat -> 0 <= f j) -> (j0 < n)%nat -> f j0 <= sum f n.
Proof.
  induction n as [|n IH]; intros H Hj; [lia|]. simpl.
  assert (0 <= f n) by (apply H; lia).
  assert (0 <= sum f n) by (apply sum_nonneg; intros; apply H; lia).
  destruct (Nat.eq_dec j0 n) as [->|Hne].
  - lra.
  - assert (f j0 <= sum f n) by (apply IH; [intros; apply H|]; lia). lra.
Qed.

Lemma sum_abs (f : nat -> R) (n : nat) :
  Rabs (sum f n) <= sum (fun j => Rabs (f j)) n.
Proof.
  induction n as [|n IH]; simpl.
  - rewrite Rabs_R0. lra.
  - eapply Rle_trans; [apply Rabs_triang|]. lra.
Qed.

(** A sum whose terms vanish away from [j0] is its term at [j0]. *)
Lemma sum_single (f : nat -> R) (n j0 : nat) :
  (j0 < n)%nat -> (forall j, (j < n)%nat -> j <> j0 -> f j = 0) ->
  sum f n = f j0.
Proof.
  induction n as [|n IH]; intros Hj H; [lia|]. simpl.
  destruct (Nat.eq_dec j0 n) as [->|Hne].
  - rewrite (sum_ext f (fun _ => 0) n), sum_const by (intros; apply H; lia). lra.
  - rewrite IH, (H n) by (intros; try apply H; lia). lra.
Qed.

(** The denominator of a softmax over a non-empty row is positive. *)
Lemma softmax_denominator_pos (s : nat -> R) (m : R) (n : nat) :
  (0 < n)%nat -> 0 < sum (fun j => exp (s j - m)) n.
Proof.
  intros Hn. destruct n as [|n]; [lia|].
  eapply Rlt_le_trans; [apply (exp_pos (s n - m))|].
  apply (sum_ge_term (fun j => exp (s j - m))); [|lia].
  intros j _. left. apply exp_pos.
Qed.

Lemma softmax_nonneg (s : nat -> R) (n j : nat) :
  (0 < n)%nat -> 0 <= softmax s n j.
Proof.
  intros Hn. unfold softmax. apply Rlt_le, Rdiv_lt_0_compat.
  - apply exp_pos.
  - now apply softmax_denominator_pos.
Qed.

(** The weight of [j] is at most [exp (s j - s j0)], whatever entry [j0] of
    the row it is compared with. *)
Lemma softmax_le_ratio (s : nat -> R) (n j j0 : nat) :
  (j0 < n)%nat -> softmax s n j <= exp (s j - s j0).
Proof.
  intros Hj0. unfold softmax.
  set (m := max s n).
  assert (Hd : 0 < sum (fun j' => exp (s j' - m)) n)
    by (apply softmax_denominator_pos; lia).
  assert (Ht : exp (s j0 - m) <= sum (fun j' => exp (s j' - m)) n).
  { apply (sum_ge_term (fun j' => exp (s j' - m))); [|exact Hj0].
    intros j' _. left. apply exp_pos. }
  replace (s j - s j0) with ((s j - m) + - (s j0 - m)) by lra.
  rewrite exp_plus, exp_Ropp.
  assert (H0 : 0 < exp (s j0 - m)) by apply exp_pos.
  assert (Hj : 0 < exp (s j - m)) by apply exp_pos.
  unfold Rdiv. apply Rmult_le_compat_l; [lra|].
  apply Rinv_le_contravar; assumption.
Qed.

(** A row of equal scores gets the uniform weight. *)
Lemma softmax_uniform (s : nat -> R) (c : R) (n j : nat) :
  (forall j', (j' < n)%nat -> s j' = c) -> (j < n)%nat ->
  softmax s n j = / INR n.
Proof.
  intros H Hj. unfold softmax.
  set (m := max s n).
  rewrite (sum_ext _ (fun _ => exp (c - m)) n)
    by (intros j' Hj'; now rewrite (H j' Hj')).
  rewrite sum_const, (H j Hj).
  assert (He : 0 < exp (c - m)) by apply exp_pos.
  assert (Hn : 0 < INR n) by (apply lt_0_INR; lia).
  field. split; lra.
Qed.

End RowFacts.

(** ** The launch: which instance writes which entry *)

Module Launch.

Lemma in_grid_coords (c : GridCoord) (nb nq nh : nat) :
  In c (grid_coords (nb, nq, nh)) <->
  pid_batch c < nb /\ pid_q_block c < nq /\ pid_head c < nh.
Proof.
  unfold grid_coords. rewrite in_flat_map. split.
  - intros (b & Hb & H). rewrite in_flat_map in H.
    destruct H as (qi & Hq & H). rewrite in_map_iff in H.
    destruct H as (h & <- & Hh). rewrite in_seq in Hb, Hq, Hh.
    simpl. lia.
  - intros (Hb & Hq & Hh). exists (pid_batch c). rewrite in_seq. split; [lia|].
    rewrite in_flat_map. exists (pid_q_block c). rewrite in_seq. split; [lia|].
    rewrite in_map_iff. exists (pid_head c). rewrite in_seq.
    destruct c; simpl in *. split; [reflexivity|lia].
Qed.

Section Fold.

(** A sequence of writes [step], of which [step o c] overwrites with
    [tile c] exactly the entries that [covers c] selects. *)
Variable step : Tensor4 -> GridCoord -> Tensor4.
Variable covers : GridCoord -> nat -> nat -> nat -> bool.
Variable tile : GridCoord -> nat -> nat -> nat -> nat -> R.

Hypothesis step_data : forall o c b i h a,
  data (step o c) b i h a =
  if covers c b i h then tile c b i h a else data o b i h a.
Hypothesis step_shape : forall o c, shape (step o c) = shape o.
Hypothesis step_dtype : forall o c, dtype (step o c) = dtype o.

Lemma fold_shape (l : list GridCoord) (o : Tensor4) :
  shape (fold_left step l o) = shape o.
Proof.
  revert o. induction l as [|c l IH]; intros o; simpl.
  - reflexivity.
  - now rewrite IH, step_shape.
Qed.

Lemma fold_dtype (l : list GridCoord) (o : Tensor4) :
  dtype (fold_left step l o) = dtype o.
Proof.
  revert o. induction l as [|c l IH]; intros o; simpl.
  - reflexivity.
  - now rewrite IH, step_dtype.
Qed.

(** When a single coordinate [c0] of the list covers the entry, the entry
    ends up holding what the instance at [c0] wrote. *)
Lemma fold_data (l : list GridCoord) (o : Tensor4) (c0 : GridCoord)
  (b i h a : nat) :
  (forall c, In c l -> covers c b i h = true -> c = c0) ->
  data (fold_left step l o) b i h a =
  if existsb (fun c => covers c b i h) l
  then tile c0 b i h a
  else data o b i h a.
Proof.
  revert o. induction l as [|c l IH]; intros o Huniq; simpl.
  - reflexivity.
  - rewrite IH by (intros c' Hc'; apply Huniq; now right).
    rewrite step_data.
    destruct (covers c b i h) eqn:Hc; simpl.
    + rewrite (Huniq c (or_introl eq_refl) Hc).
      now destruct (existsb _ l).
    + reflexivity.
Qed.

End Fold.

End Launch.

(** ** Entry-wise descriptions of the two kernels *)

Lemma or_default_pos (n d : nat) : 0 < n -> or_default (Some n) d = n.
Proof. destruct n; [lia|reflexivity]. Qed.

Lemma reference_data (q k v : Tensor4) (mask : Mask2)
  (B S H D B' S' H' D' B'' S'' H'' D'' : nat) :
  shape q = (B, S, H, D) -> shape k = (B', S', H', D') ->
  shape v = (B'', S'', H'', D'') ->
  forall b i h a,
    data (reference_mha_kernel q k v mask false) b i h a
    = reference_entry q k v mask D S' b i h a.
Proof.
  intros Hq Hk Hv b i h a. unfold reference_mha_kernel, reference_mha_s.
  rewrite Hq, Hk, Hv. reflexivity.
Qed.

Section TiledEntries.

Local Open Scope R_scope.

Variables (q k v : Tensor4) (mask : Mask2).
Variables (B S H D qb : nat) (dt : DType).

Let pc := mha_pallas_call B S H D qb S dt.

Lemma run_instance_data (o : Tensor4) (c : GridCoord) (b i h a : nat) :
  data (run_instance pc q k v mask o c) b i h a =
  if in_block (pc_out_spec pc) c b i h then instance_tile q k v mask pc c b i h a
  else data o b i h a.
Proof. reflexivity. Qed.

Hypothesis qb_pos : (0 < qb)%nat.
Hypothesis qb_divides : exists n, S = (n * qb)%nat.

Lemma q_offset (b i h : nat) :
  (i < S)%nat ->
  row_offset (get_value_or_laplacian_block_spec S D qb) (mkCoord b (i / qb) h)
  = (i / qb * qb)%nat.
Proof.
  intros Hi. simpl. destruct (Nat.eqb_spec qb S) as [->|_]; [|reflexivity].
  rewrite Nat.div_small by exact Hi. reflexivity.
Qed.

Lemma covering_unique (c : GridCoord) (b i h : nat) :
  In c (grid_coords (pc_grid pc)) ->
  in_block (pc_out_spec pc) c b i h = true ->
  c = mkCoord b (i / qb) h.
Proof.
  intros Hin Hcov. apply Launch.in_grid_coords in Hin.
  destruct Hin as (_ & Hq & _).
  unfold in_block in Hcov. simpl in Hcov.
  repeat rewrite andb_true_iff in Hcov.
  destruct Hcov as (((Hb & Hh) & Hlo) & Hhi).
  apply Nat.eqb_eq in Hb, Hh. apply Nat.leb_le in Hlo. apply Nat.ltb_lt in Hhi.
  destruct c as [cb cq ch]; simpl in *. subst cb ch. f_equal.
  destruct (Nat.eqb_spec qb S) as [->|_].
  - rewrite Nat.div_same in Hq by lia.
    rewrite Nat.div_small by lia. lia.
  - apply (Nat.div_unique i qb cq (i - cq * qb)); lia.
Qed.

Lemma covering_exists (b i h : nat) :
  (b < B)%nat -> (i < S)%nat -> (h < H)%nat ->
  existsb (fun c => in_block (pc_out_spec pc) c b i h)
    (grid_coords (pc_grid pc)) = true.
Proof.
  intros Hb Hi Hh. apply existsb_exists. exists (mkCoord b (i / qb) h). split.
  - apply Launch.in_grid_coords. simpl. repeat split; try assumption.
    destruct qb_divides as [n ->]. rewrite Nat.div_mul by lia.
    apply Nat.Div0.div_lt_upper_bound. lia.
  - unfold in_block. change (pc_out_spec pc) with (get_value_or_laplacian_block_spec S D qb).
    rewrite q_offset by exact Hi. simpl.
    rewrite !Nat.eqb_refl. simpl.
    pose proof (Nat.Div0.mul_div_le i qb).
    pose proof (Nat.mul_succ_div_gt i qb).
    apply andb_true_iff. split; [apply Nat.leb_le|apply Nat.ltb_lt]; lia.
Qed.

Lemma instance_tile_entry (b i h a : nat) :
  (i < S)%nat ->
  instance_tile q k v mask pc (mkCoord b (i / qb) h) b i h a
  = tiled_entry q k v mask D S b i h a.
Proof.
  intros Hi. unfold instance_tile.
  cbv beta iota zeta delta
    [mha_kernel mha_kernel_s mha_kernel_q_mask instance_refs o_ref at2 q_ref k_ref v_ref mask_ref load_block load_mask_block rows cols
     at1 len pc mha_pallas_call pc_body pc_q_spec pc_k_spec pc_v_spec pc_mask_spec
     pc_out_spec program_id pid_batch pid_q_block pid_head block_rows
     block_cols row_offset get_value_or_laplacian_block_spec
     get_mask_block_spec mask_block_len].
  assert (Hoff : (if qb =? S then 0%nat else (i / qb * qb)%nat) = (i / qb * qb)%nat).
  { destruct (Nat.eqb_spec qb S) as [->|_]; [|reflexivity].
    now rewrite Nat.div_small. }
  rewrite Hoff, Nat.eqb_refl, (or_default_pos qb qb qb_pos).
  unfold dot, dot_trans_b.
  pose proof (Nat.Div0.mul_div_le i qb) as Hle.
  replace (i / qb * qb + (i - i / qb * qb))%nat with i by lia.
  reflexivity.
Qed.


Lemma pallas_shape : shape (pallas_call pc q k v mask) = (B, S, H, D).
Proof.
  unfold pallas_call.
  now rewrite (Launch.fold_shape (run_instance pc q k v mask)).
Qed.

Lemma pallas_dtype : dtype (pallas_call pc q k v mask) = dt.
Proof.
  unfold pallas_call.
  now rewrite (Launch.fold_dtype (run_instance pc q k v mask)).
Qed.

(** Every entry of the output of the launch, in closed form. *)
Lemma pallas_data (b i h a : nat) :
  (b < B)%nat -> (i < S)%nat -> (h < H)%nat ->
  data (pallas_call pc q k v mask) b i h a = tiled_entry q k v mask D S b i h a.
Proof.
  intros Hb Hi Hh. unfold pallas_call.
  rewrite (Launch.fold_data (run_instance pc q k v mask)
             (in_block (pc_out_spec pc)) (instance_tile q k v mask pc)
             run_instance_data
             _ _ (mkCoord b (i / qb) h))
    by (intros c; apply covering_unique).
  rewrite covering_exists by assumption.
  now apply instance_tile_entry.
Qed.

End TiledEntries.

(** ** The dispatcher, branch by branch *)

Section Dispatch.

Variable A : Type.
Variables (q k v : Tensor4) (mask : Mask2) (input_mask : A).
Variables (interpret : bool) (num_warps num_stages : Z).
Variables (B S H D : nat).
Hypothesis q_shape : shape q = (B, S, H, D).

Lemma planner_kv (seq_len : Z) (q_block_len : option Z) (qb kvb : Z) :
  compute_q_and_kv_block_len seq_len q_block_len = Ok (qb, kvb) ->
  kvb = seq_len /\ (seq_len mod qb = 0)%Z /\
  qb = match q_block_len with None => seq_len | Some n => n end.
Proof.
  unfold compute_q_and_kv_block_len.
  destruct (Z.eqb_spec (seq_len mod match q_block_len with
                                    | None => seq_len
                                    | Some n => n
                                    end) 0) as [Hm|Hm]; [|discriminate].
  intros [= <- <-]. auto.
Qed.

Lemma planner_ok (seq_len : Z) (q_block_len : option Z) :
  (seq_len mod match q_block_len with None => seq_len | Some n => n end = 0)%Z ->
  compute_q_and_kv_block_len seq_len q_block_len
  = Ok (match q_block_len with None => seq_len | Some n => n end, seq_len).
Proof.
  intros Hm. unfold compute_q_and_kv_block_len. rewrite Hm. reflexivity.
Qed.

Lemma planner_err (seq_len : Z) (q_block_len : option Z) :
  (seq_len mod match q_block_len with None => seq_len | Some n => n end <> 0)%Z ->
  compute_q_and_kv_block_len seq_len q_block_len
  = Err (BlockLenError seq_len
           match q_block_len with None => seq_len | Some n => n end).
Proof.
  intros Hm. unfold compute_q_and_kv_block_len.
  apply Z.eqb_neq in Hm. rewrite Hm. reflexivity.
Qed.

Lemma planner_none (seq_len : Z) :
  compute_q_and_kv_block_len seq_len None = Ok (seq_len, seq_len).
Proof. apply (planner_ok seq_len None), Z_mod_same_full. Qed.

(** The planner runs first, whatever the kernel: its failure is the
    failure of [mha]. *)
Lemma mha_planner_err (kernel : string) (q_block_len : option Z) (e : error) :
  compute_q_and_kv_block_len (Z.of_nat S) q_block_len = Err e ->
  mha q k v mask input_mask kernel interpret q_block_len num_warps num_stages
  = Err e.
Proof. intros He. unfold mha. rewrite q_shape, He. reflexivity. Qed.

Lemma mha_reference (q_block_len : option Z) (p : Z * Z) :
  compute_q_and_kv_block_len (Z.of_nat S) q_block_len = Ok p ->
  mha q k v mask input_mask "reference" interpret q_block_len num_warps num_stages
  = Ok (reference_mha_kernel q k v mask false).
Proof. intros Hp. unfold mha. rewrite q_shape, Hp. destruct p. reflexivity. Qed.

Lemma mha_pallas (q_block_len : option Z) (qb kvb : Z) :
  compute_q_and_kv_block_len (Z.of_nat S) q_block_len = Ok (qb, kvb) ->
  (0 < qb)%Z -> dtype q = float32 ->
  mha q k v mask input_mask "pallas" interpret q_block_len num_warps num_stages
  = Ok (pallas_call (mha_pallas_call B S H D (Z.to_nat qb) S (dtype q)) q k v mask).
Proof.
  intros Hp Hpos Hdt. unfold mha. rewrite q_shape, Hp.
  destruct (planner_kv _ _ _ _ Hp) as (-> & _ & _).
  apply Z.ltb_lt in Hpos. simpl. rewrite Hpos, Nat2Z.id, Hdt. reflexivity.
Qed.

(** A query of another type than float32 makes the device path fail. *)
Lemma mha_pallas_dtype (q_block_len : option Z) (qb kvb : Z) :
  compute_q_and_kv_block_len (Z.of_nat S) q_block_len = Ok (qb, kvb) ->
  (0 < qb)%Z -> dtype q <> float32 ->
  mha q k v mask input_mask "pallas" interpret q_block_len num_warps num_stages
  = Err StoreDTypeError.
Proof.
  intros Hp Hpos Hdt. unfold mha. rewrite q_shape, Hp.
  apply Z.ltb_lt in Hpos. simpl. rewrite Hpos.
  destruct (dtype q); try reflexivity. congruence.
Qed.

Lemma mha_pallas_invalid (q_block_len : option Z) (qb kvb : Z) :
  compute_q_and_kv_block_len (Z.of_nat S) q_block_len = Ok (qb, kvb) ->
  (qb <= 0)%Z ->
  mha q k v mask input_mask "pallas" interpret q_block_len num_warps num_stages
  = Err (InvalidBlock qb).
Proof.
  intros Hp Hpos. unfold mha. rewrite q_shape, Hp.
  apply Z.ltb_ge in Hpos. simpl. rewrite Hpos. reflexivity.
Qed.

Lemma mha_unknown (kernel : string) (q_block_len : option Z) (p : Z * Z) :
  kernel <> "pallas"%string -> kernel <> "reference"%string ->
  compute_q_and_kv_block_len (Z.of_nat S) q_block_len = Ok p ->
  mha q k v mask input_mask kernel interpret q_block_len num_warps num_stages
  = Err (UnknownKernel kernel).
Proof.
  intros Hp Hr Hplan. unfold mha. rewrite q_shape, Hplan. destruct p.
  apply String.eqb_neq in Hp, Hr. simpl. rewrite Hp, Hr. reflexivity.
Qed.

End Dispatch.

(** A positive block length that divides the sequence length, on [nat]. *)
Lemma divides_to_nat (S : nat) (qb : Z) :
  (0 < qb)%Z -> (Z.of_nat S mod qb = 0)%Z ->
  (0 < Z.to_nat qb)%nat /\ exists n, S = (n * Z.to_nat qb)%nat.
Proof.
  intros Hpos Hm. split; [lia|].
  exists (Z.to_nat (Z.of_nat S / qb)).
  apply Nat2Z.inj. rewrite Nat2Z.inj_mul, !Z2Nat.id.
  - rewrite Z.mul_comm. apply Z.div_exact; lia.
  - lia.
  - apply Z.div_pos; lia.
Qed.

(** ** Scores and weights, row by row *)

Section Scores.

Import Row RowFacts.
Local Open Scope R_scope.

Variables (q k v : Tensor4) (mask : Mask2).
Variables (D S : nat).

Local Abbreviation mdot := (masked_dot q k mask D).

Lemma reference_score_masked_dot (b i h j : nat) :
  reference_score q k mask D b i h j = mdot b i h j.
Proof.
  unfold reference_score, masked_dot. now rewrite andb_comm.
Qed.

(** Zeroing the invalid rows changes no score: a pair with an invalid row
    is replaced by the sentinel anyway. *)
Lemma tiled_score_masked_dot (b i h j : nat) :
  tiled_score q k mask D b i h j = mdot b i h j.
Proof.
  unfold tiled_score, masked_dot, zeroed.
  destruct (mask_data mask b i), (mask_data mask b j); reflexivity.
Qed.

Lemma masked_dot_invalid_query (b i h j : nat) :
  mask_data mask b i = false -> mdot b i h j = SENTINEL.
Proof. intros Hi. unfold masked_dot. now rewrite Hi. Qed.

Lemma masked_dot_invalid_key (b i h j : nat) :
  mask_data mask b j = false -> mdot b i h j = SENTINEL.
Proof. intros Hj. unfold masked_dot. now rewrite Hj, andb_false_r. Qed.

Lemma masked_dot_diagonal (b i h : nat) :
  mask_data mask b i = true ->
  mdot b i h i = sum (fun a => data q b i h a * data k b i h a) D.
Proof. intros Hi. unfold masked_dot. now rewrite Hi. Qed.

Lemma reference_entry_masked_dot (b i h a : nat) :
  reference_entry q k v mask D S b i h a
  = sum (fun j => softmax (mdot b i h) S j * data v b j h a) S.
Proof.
  unfold reference_entry. apply sum_ext. intros j Hj. f_equal.
  apply softmax_ext; [|exact Hj].
  intros j' _. apply reference_score_masked_dot.
Qed.

Lemma tiled_entry_masked_dot (b i h a : nat) :
  tiled_entry q k v mask D S b i h a
  = sum (fun j => softmax (mdot b i h) S j * zeroed mask v b j h a) S.
Proof.
  unfold tiled_entry. apply sum_ext. intros j Hj. f_equal.
  apply softmax_ext; [|exact Hj].
  intros j' _. apply tiled_score_masked_dot.
Qed.

(** On the row of an invalid query position every weight is [1 / S]. *)
Lemma masked_row_uniform (b i h j : nat) :
  mask_data mask b i = false -> (j < S)%nat ->
  softmax (mdot b i h) S j = / INR S.
Proof.
  intros Hi Hj. apply (softmax_uniform _ SENTINEL); [|exact Hj].
  intros j' _. now apply masked_dot_invalid_query.
Qed.

Lemma tiled_entry_masked_row (b i h a : nat) :
  mask_data mask b i = false ->
  tiled_entry q k v mask D S b i h a
  = / INR S * sum (fun j => zeroed mask v b j h a) S.
Proof.
  intros Hi. rewrite tiled_entry_masked_dot, <- sum_scal.
  apply sum_ext. intros j Hj. now rewrite masked_row_uniform.
Qed.

Lemma reference_entry_masked_row (b i h a : nat) :
  mask_data mask b i = false ->
  reference_entry q k v mask D S b i h a
  = / INR S * sum (fun j => data v b j h a) S.
Proof.
  intros Hi. rewrite reference_entry_masked_dot, <- sum_scal.
  apply sum_ext. intros j Hj. now rewrite masked_row_uniform.
Qed.

(** On the row of a valid query position [i] the weight of an invalid key
    is at most [exp (SENTINEL - q_i . k_i)]: key [i] itself is valid. *)
Lemma valid_row_leak (b i h j : nat) :
  mask_data mask b i = true -> mask_data mask b j = false -> (i < S)%nat ->
  softmax (mdot b i h) S j
  <= exp (SENTINEL - sum (fun a => data q b i h a * data k b i h a) D).
Proof.
  intros Hi Hj HiS.
  rewrite <- (masked_dot_diagonal b i h Hi).
  rewrite <- (masked_dot_invalid_key b i h j Hj).
  now apply softmax_le_ratio.
Qed.

End Scores.

(** ** The two backends against each other, and against changed inputs *)

Lemma set_row_differs (t : Tensor4) (b j : nat) (x : R) :
  differ_only_at t (set_row t b j x) b j.
Proof.
  intros b' j' h a Hne. simpl.
  destruct (Nat.eqb_spec b' b), (Nat.eqb_spec j' j); simpl; try reflexivity.
  lia.
Qed.

Section Compare.

Import Row RowFacts.
Local Open Scope R_scope.

Variables (q k v : Tensor4) (mask : Mask2).
Variables (D S : nat).

(** At a valid query position the two backends weigh the keys alike; they
    differ by the value rows at invalid keys, which only the device kernel
    zeroes, times weights that the sentinel makes negligible. *)
Lemma backends_gap (b i h a : nat) :
  mask_data mask b i = true -> (i < S)%nat ->
  Rabs (reference_entry q k v mask D S b i h a
        - tiled_entry q k v mask D S b i h a)
  <= exp (SENTINEL - sum (fun a' => data q b i h a' * data k b i h a') D)
     * sum (fun j => if mask_data mask b j then 0 else Rabs (data v b j h a)) S.
Proof.
  intros Hi HiS.
  rewrite reference_entry_masked_dot, tiled_entry_masked_dot, sum_minus.
  eapply Rle_trans; [apply sum_abs|]. rewrite <- sum_scal.
  apply sum_le. intros j Hj. unfold zeroed.
  rewrite <- Rmult_minus_distr_l, Rabs_mult.
  rewrite (Rabs_pos_eq (softmax _ S j)) by (apply softmax_nonneg; lia).
  destruct (mask_data mask b j) eqn:Hmj.
  - rewrite Rminus_diag, Rabs_R0. lra.
  - rewrite Rminus_0_r. apply Rmult_le_compat_r; [apply Rabs_pos|].
    now apply valid_row_leak.
Qed.

Variables (k' v' : Tensor4) (b j : nat).
Hypothesis j_masked : mask_data mask b j = false.
Hypothesis k_differ : differ_only_at k k' b j.
Hypothesis v_differ : differ_only_at v v' b j.

Lemma masked_dot_key_change (i h j' : nat) :
  masked_dot q k mask D b i h j' = masked_dot q k' mask D b i h j'.
Proof.
  unfold masked_dot. destruct (Nat.eq_dec j' j) as [->|Hne].
  - now rewrite j_masked, andb_false_r.
  - destruct (_ && _); [|reflexivity].
    apply sum_ext. intros a _. rewrite (k_differ b j' h a); auto.
Qed.

Lemma zeroed_value_change (j' h a : nat) :
  zeroed mask v b j' h a = zeroed mask v' b j' h a.
Proof.
  unfold zeroed. destruct (Nat.eq_dec j' j) as [->|Hne].
  - now rewrite j_masked.
  - rewrite (v_differ b j' h a); auto.
Qed.

(** The device kernel: the keys and values at an invalid position reach no
    entry of the batch element. *)
Lemma tiled_entry_noninterference (i h a : nat) :
  tiled_entry q k v mask D S b i h a = tiled_entry q k' v' mask D S b i h a.
Proof.
  rewrite !tiled_entry_masked_dot. apply sum_ext. intros j' Hj'.
  rewrite zeroed_value_change. f_equal.
  apply softmax_ext; [|exact Hj']. intros j'' _. apply masked_dot_key_change.
Qed.

(** The reference kernel: the keys at an invalid position reach no entry. *)
Lemma reference_entry_key_change (i h a : nat) :
  reference_entry q k v mask D S b i h a = reference_entry q k' v mask D S b i h a.
Proof.
  rewrite !reference_entry_masked_dot. apply sum_ext. intros j' Hj'. f_equal.
  apply softmax_ext; [|exact Hj']. intros j'' _. apply masked_dot_key_change.
Qed.

(** The reference kernel: the values at an invalid position enter with the
    weight of that key. *)
Lemma reference_entry_value_change (i h a : nat) :
  (j < S)%nat ->
  reference_entry q k v mask D S b i h a - reference_entry q k' v' mask D S b i h a
  = softmax (masked_dot q k mask D b i h) S j * (data v b j h a - data v' b j h a).
Proof.
  intros Hj. rewrite !reference_entry_masked_dot, sum_minus.
  rewrite (sum_single _ S j Hj).
  - rewrite Rmult_minus_distr_l. f_equal. f_equal.
    apply softmax_ext; [|exact Hj]. intros j'' _.
    symmetry. apply masked_dot_key_change.
  - intros j' Hj' Hne.
    rewrite (v_differ b j' h a) by auto.
    rewrite (softmax_ext (masked_dot q k mask D b i h)
               (masked_dot q k' mask D b i h) S j') by
      (try exact Hj'; intros j'' _; apply masked_dot_key_change).
    lra.
Qed.

Lemma reference_entry_value_leak (i h a : nat) :
  mask_data mask b i = true -> (i < S)%nat -> (j < S)%nat ->
  Rabs (reference_entry q k v mask D S b i h a
        - reference_entry q k' v' mask D S b i h a)
  <= exp (SENTINEL - sum (fun a' => data q b i h a' * data k b i h a') D)
     * Rabs (data v b j h a - data v' b j h a).
Proof.
  intros Hi HiS Hj. rewrite reference_entry_value_change by exact Hj.
  rewrite Rabs_mult, (Rabs_pos_eq (softmax _ S j)) by (apply softmax_nonneg; lia).
  apply Rmult_le_compat_r; [apply Rabs_pos|].
  now apply valid_row_leak.
Qed.

End Compare.

(** ** The entry point on well-shaped inputs *)

Section EntryPoint.

Import Row RowFacts.
Local Open Scope R_scope.

Variable A : Type.
Variables (q k v : Tensor4) (mask : Mask2) (input_mask : A).
Variables (interpret : bool) (num_warps num_stages : Z).
Variables (B S H D : nat).
Hypothesis q_shape : shape q = (B, S, H, D).

(** The tiled backend returns once the planner has accepted a positive
    block length, and its entries are [tiled_entry]. *)
Lemma mha_pallas_entries (q_block_len : option Z) (qb kvb : Z) :
  compute_q_and_kv_block_len (Z.of_nat S) q_block_len = Ok (qb, kvb) ->
  (0 < qb)%Z -> dtype q = float32 ->
  exists o,
    mha q k v mask input_mask "pallas" interpret q_block_len num_warps num_stages
    = Ok o /\
    shape o = shape q /\ dtype o = dtype q /\
    forall b i h a, (b < B)%nat -> (i < S)%nat -> (h < H)%nat ->
      data o b i h a = tiled_entry q k v mask D S b i h a.
Proof.
  intros Hplan Hpos Hdt.
  destruct (planner_kv _ _ _ _ Hplan) as (_ & Hdiv & _).
  destruct (divides_to_nat S qb Hpos Hdiv) as (Hpos' & Hdiv').
  eexists. split; [|split; [|split]].
  - now apply (mha_pallas A q k v mask input_mask interpret num_warps num_stages
                 B S H D q_shape q_block_len qb kvb).
  - now rewrite pallas_shape.
  - now rewrite pallas_dtype.
  - intros b i h a Hb Hi Hh. now apply pallas_data.
Qed.

(** The reference backend returns once the planner has accepted the block
    length, and its entries are [reference_entry]. *)
Lemma mha_reference_entries (q_block_len : option Z) (p : Z * Z) :
  shape k = (B, S, H, D) -> shape v = (B, S, H, D) ->
  compute_q_and_kv_block_len (Z.of_nat S) q_block_len = Ok p ->
  exists o,
    mha q k v mask input_mask "reference" interpret q_block_len num_warps num_stages
    = Ok o /\
    shape o = shape q /\
    forall b i h a, data o b i h a = reference_entry q k v mask D S b i h a.
Proof.
  intros Hk Hv Hp. eexists. split; [|split].
  - now apply (mha_reference A q k v mask input_mask interpret num_warps
                 num_stages B S H D q_shape q_block_len p).
  - unfold reference_mha_kernel. rewrite q_shape, Hk, Hv. reflexivity.
  - intros b i h a.
    apply (reference_data q k v mask B S H D B S H D B S H D q_shape Hk Hv).
Qed.

End EntryPoint.

(** ** Special values: sums, maxima and weights *)

Module SpecialFacts.

Import RowFacts.
Local Open Scope R_scope.

Lemma dtype_float32_dec (d : DType) : {d = float32} + {d <> float32}.
Proof. destruct d; (now left) || (right; discriminate). Qed.





Lemma sum_nan (f : nat -> Special.xreal) (n : nat) :
  (0 < n)%nat -> (forall j, (j < n)%nat -> f j = Special.NaN) ->
  Special.sum f n = Special.NaN.
Proof.
  intros Hn H. destruct n as [|n]; [lia|]. simpl.
  rewrite (H n) by lia. now destruct (Special.sum f n).
Qed.

Lemma max_idem (x : Special.xreal) : Special.max x x = x.
Proof.
  destruct x; simpl; try reflexivity.
  f_equal. apply Rmax_left. lra.
Qed.

Lemma maxn_const (s : nat -> Special.xreal) (c : Special.xreal) (n : nat) :
  (0 < n)%nat -> (forall j, (j < n)%nat -> s j = c) -> Special.maxn s n = c.
Proof.
  induction n as [|n IH]; intros Hn H; [lia|]. simpl.
  rewrite (H n) by lia. destruct n as [|n].
  - simpl. now destruct c.
  - rewrite IH by (try lia; intros; apply H; lia). apply max_idem.
Qed.


(** A row of which every score is minus infinity has no finite maximum:
    the shifted scores, and with them the weights, are NaN. *)
Lemma softmax_all_ninf (s : nat -> Special.xreal) (n j : nat) :
  (forall j', (j' < n)%nat -> s j' = Special.NInf) -> (j < n)%nat ->
  Special.softmax s n j = Special.NaN.
Proof.
  intros H Hj. unfold Special.softmax.
  rewrite (maxn_const s Special.NInf n) by (try lia; exact H).
  now rewrite (H j Hj).
Qed.


End SpecialFacts.

(** ** Special values: the kernels on masked rows *)

Section SpecialKernels.

Import RowFacts SpecialFacts.
Local Open Scope R_scope.

Variables (q k v : Tensor4) (mask : Mask2).

Lemma special_reference_s (B S H D : nat) (b i h j : nat) :
  shape q = (B, S, H, D) ->
  Special.reference_mha_s q k mask b i h j
  = if mask_data mask b i && mask_data mask b j
    then Special.Fin (Row.sum (fun a => data q b i h a * data k b j h a) D)
    else Special.sentinel_of (promote_types (dtype q) (dtype k)).
Proof.
  intros Hq. unfold Special.reference_mha_s. rewrite Hq.
  now rewrite andb_comm.
Qed.

Lemma special_reference_data (B' S' H' D' : nat) (interpret : bool)
  (b i h a : nat) :
  shape k = (B', S', H', D') ->
  Special.reference_mha_kernel q k v mask interpret b i h a
  = Special.sum
      (fun j => Special.mul
                  (Special.softmax (Special.reference_mha_s q k mask b i h) S' j)
                  (Special.Fin (data v b j h a))) S'.
Proof.
  intros Hk. unfold Special.reference_mha_kernel. now rewrite Hk.
Qed.



(** The same row when the scores are of type float16: the sentinel is minus
    infinity, the weights and the output are NaN. *)
Lemma special_reference_masked_row_nan (B S H D B' S' H' D' : nat)
  (interpret : bool) (b i h a : nat) :
  shape q = (B, S, H, D) -> shape k = (B', S', H', D') ->
  promote_types (dtype q) (dtype k) = float16 ->
  mask_data mask b i = false -> (0 < S')%nat ->
  Special.reference_mha_kernel q k v mask interpret b i h a = Special.NaN.
Proof.
  intros Hq Hk Hdt Hm HS.
  assert (Hs : forall j, Special.reference_mha_s q k mask b i h j = Special.NInf).
  { intros j. rewrite (special_reference_s B S H D b i h j Hq), Hm, Hdt.
    reflexivity. }
  rewrite (special_reference_data B' S' H' D' interpret b i h a Hk).
  apply sum_nan; [exact HS|]. intros j Hj.
  rewrite softmax_all_ninf by (try exact Hj; intros; apply Hs). reflexivity.
Qed.


End SpecialKernels.

Section SpecialInstances.

Import RowFacts SpecialFacts.
Local Open Scope R_scope.

Variables (q k v : Tensor4) (mask : Mask2).
Variables (B S H D qb : nat) (dt : DType).
Hypothesis qb_pos : (0 < qb)%nat.
Hypothesis qb_divides : exists n, S = (n * qb)%nat.

Let pc := mha_pallas_call B S H D qb S dt.




End SpecialInstances.

(** ** The launch on mutable references *)

Section StoreFacts.

Lemma store_load_block (spec : BlockSpec) (t : Tensor4) (c : GridCoord) :
  store_block spec t c (load_block spec t c) = t.
Proof.
  destruct t as [sh dt d]. unfold store_block, load_block. simpl. f_equal.
  extensionality b. extensionality i. extensionality h. extensionality a.
  unfold in_block.
  destruct (Nat.eqb_spec b (pid_batch c)) as [->|]; simpl; [|reflexivity].
  destruct (Nat.eqb_spec h (pid_head c)) as [->|]; simpl; [|reflexivity].
  destruct (Nat.leb_spec (row_offset spec c) i) as [Hle|]; simpl; [|reflexivity].
  destruct (_ <? _); [|reflexivity].
  f_equal. lia.
Qed.

Lemma store_load_mask_block (spec : MaskSpec) (m : Mask2) (c : GridCoord) :
  store_mask_block spec m c (load_mask_block spec m c) = m.
Proof.
  destruct m as [sh d]. unfold store_mask_block, load_mask_block. simpl. f_equal.
  extensionality b. extensionality j.
  now destruct (Nat.eqb_spec b (pid_batch c)) as [->|].
Qed.

Variables (B S H D qb : nat) (dt : DType).

Let pc := mha_pallas_call B S H D qb S dt.

(** An instance of the device kernel writes the output tile only. *)
Lemma run_instance_store_frame (st : Store) (c : GridCoord) :
  run_instance_store pc st c
  = {| st_q := st_q st; st_k := st_k st; st_v := st_v st;
       st_mask := st_mask st;
       st_o := run_instance pc (st_q st) (st_k st) (st_v st) (st_mask st)
                 (st_o st) c |}.
Proof.
  unfold run_instance_store. f_equal.
  - apply (store_load_block (pc_q_spec pc)).
  - apply (store_load_block (pc_k_spec pc)).
  - apply (store_load_block (pc_v_spec pc)).
  - apply (store_load_mask_block (pc_mask_spec pc)).
Qed.

Lemma fold_store_frame (l : list GridCoord) (q k v : Tensor4) (mask : Mask2)
  (o : Tensor4) :
  fold_left (run_instance_store pc) l
    {| st_q := q; st_k := k; st_v := v; st_mask := mask; st_o := o |}
  = {| st_q := q; st_k := k; st_v := v; st_mask := mask;
       st_o := fold_left (run_instance pc q k v mask) l o |}.
Proof.
  revert o. induction l as [|c l IH]; intros o; simpl.
  - reflexivity.
  - rewrite run_instance_store_frame. simpl. apply IH.
Qed.

Lemma launch_store_frame (q k v : Tensor4) (mask : Mask2) :
  launch_store pc q k v mask
  = {| st_q := q; st_k := k; st_v := v; st_mask := mask;
       st_o := pallas_call pc q k v mask |}.
Proof. apply fold_store_frame. Qed.

End StoreFacts.

(** ** The tolerance at valid rows *)

Section Tolerance.

Import RowFacts.
Local Open Scope R_scope.

Lemma exp_neg_le (x : R) : 0 <= x -> exp (- x) <= / (1 + x).
Proof.
  intros Hx. rewrite exp_Ropp. apply Rinv_le_contravar; [lra|].
  apply exp_ineq1_le.
Qed.

(** A weight of [exp (SENTINEL - s)] on at most [1e14] values bounded by
    [M] is below [1e-5 * M] for any score [s] above [-9e19]. *)
Lemma sentinel_leak_tolerance (s M : R) (x : nat -> R) (m : nat -> bool)
  (n : nat) :
  (0 < n)%nat -> - 9e19 <= s -> INR n <= 1e14 ->
  (forall j, (j < n)%nat -> Rabs (x j) <= M) ->
  exp (SENTINEL - s) * Row.sum (fun j => if m j then 0 else Rabs (x j)) n
  <= 1e-5 * M.
Proof.
  intros Hpos Hs Hn Hx.
  assert (HM : 0 <= M)
    by (eapply Rle_trans; [apply Rabs_pos|apply (Hx O Hpos)]).
  assert (Hsum : Row.sum (fun j => if m j then 0 else Rabs (x j)) n <= INR n * M).
  { rewrite <- sum_const. apply sum_le. intros j Hj.
    destruct (m j); [exact HM|now apply Hx]. }
  assert (Hsum0 : 0 <= Row.sum (fun j => if m j then 0 else Rabs (x j)) n).
  { apply sum_nonneg. intros j _. destruct (m j); [lra|apply Rabs_pos]. }
  assert (HE0 : 0 < exp (SENTINEL - s)) by apply exp_pos.
  assert (HE : exp (SENTINEL - s) <= / 1e19).
  { replace (SENTINEL - s) with (- (1e20 + s)) by (unfold SENTINEL; lra).
    eapply Rle_trans; [apply exp_neg_le; lra|].
    apply Rinv_le_contravar; lra. }
  assert (HnM : INR n * M <= 1e14 * M) by (apply Rmult_le_compat_r; assumption).
  apply Rle_trans with (/ 1e19 * (1e14 * M)); [|lra].
  apply Rmult_le_compat; lra.
Qed.

End Tolerance.

(** ** What a successful call returns *)

Section Returned.

Import Row RowFacts SpecialFacts.
Local Open Scope R_scope.

Variable A : Type.
Variables (q k v : Tensor4) (mask : Mask2) (input_mask : A).
Variables (interpret : bool) (num_warps num_stages : Z).
Variables (B S H D : nat).
Hypothesis q_shape : shape q = (B, S, H, D).

Lemma planner_chosen (q_block_len : option Z) (qb kvb : Z) :
  compute_q_and_kv_block_len (Z.of_nat S) q_block_len = Ok (qb, kvb) ->
  qb = chosen_block_len S q_block_len /\ (Z.of_nat S mod qb = 0)%Z.
Proof.
  intros Hplan. destruct (planner_kv _ _ _ _ Hplan) as (_ & Hm & Hqb).
  split; [exact Hqb|exact Hm].
Qed.

(** A call that returns was made with an accepted kernel name and a block
    length the planner accepts; the output is that of the launch or of the
    reference kernel. *)
Lemma mha_ok_inv (kernel : string) (q_block_len : option Z) (o : Tensor4) :
  mha q k v mask input_mask kernel interpret q_block_len num_warps num_stages
  = Ok o ->
  (Z.of_nat S mod chosen_block_len S q_block_len = 0)%Z /\
  ((kernel = "pallas"%string /\
    (0 < chosen_block_len S q_block_len)%Z /\
    o = pallas_call
          (mha_pallas_call B S H D (Z.to_nat (chosen_block_len S q_block_len))
             S (dtype q)) q k v mask) \/
   (kernel = "reference"%string /\
    o = reference_mha_kernel q k v mask false)).
Proof.
  intros Ho.
  destruct (compute_q_and_kv_block_len (Z.of_nat S) q_block_len)
    as [[qb kvb]|e] eqn:Hplan.
  - destruct (planner_chosen _ _ _ Hplan) as (Hqb & Hm). subst qb.
    split; [exact Hm|].
    destruct (String.eqb_spec kernel "pallas") as [->|Hp].
    + left. destruct (Z.ltb_spec 0 (chosen_block_len S q_block_len)) as [Hpos|Hneg];
        [destruct (dtype_float32_dec (dtype q)) as [Hdt|Hdt]|].
      * rewrite (mha_pallas A q k v mask input_mask interpret num_warps
                   num_stages B S H D q_shape q_block_len _ kvb Hplan Hpos Hdt)
          in Ho.
        injection Ho as <-. auto.
      * rewrite (mha_pallas_dtype A q k v mask input_mask interpret num_warps
                   num_stages B S H D q_shape q_block_len _ kvb Hplan Hpos Hdt)
          in Ho.
        discriminate.
      * rewrite (mha_pallas_invalid A q k v mask input_mask interpret num_warps
                   num_stages B S H D q_shape q_block_len _ kvb Hplan Hneg) in Ho.
        discriminate.
    + destruct (String.eqb_spec kernel "reference") as [->|Hr].
      * right. rewrite (mha_reference A q k v mask input_mask interpret num_warps
                          num_stages B S H D q_shape q_block_len _ Hplan) in Ho.
        injection Ho as <-. auto.
      * rewrite (mha_unknown A q k v mask input_mask interpret num_warps
                   num_stages B S H D q_shape kernel q_block_len _ Hp Hr Hplan)
          in Ho.
        discriminate.
  - rewrite (mha_planner_err A q k v mask input_mask interpret num_warps
               num_stages B S H D q_shape kernel q_block_len e Hplan) in Ho.
    discriminate.
Qed.

(** The tiled backend returns for a float32 query only. *)
Lemma mha_pallas_ok_dtype (q_block_len : option Z) (o : Tensor4) :
  mha q k v mask input_mask "pallas" interpret q_block_len num_warps num_stages
  = Ok o ->
  dtype q = float32.
Proof.
  intros Ho. destruct (dtype_float32_dec (dtype q)) as [Hdt|Hdt]; [exact Hdt|].
  exfalso.
  destruct (compute_q_and_kv_block_len (Z.of_nat S) q_block_len)
    as [[qb kvb]|e] eqn:Hplan.
  - destruct (Z.ltb_spec 0 qb) as [Hpos|Hneg].
    + rewrite (mha_pallas_dtype A q k v mask input_mask interpret num_warps
                 num_stages B S H D q_shape q_block_len _ kvb Hplan Hpos Hdt)
        in Ho.
      discriminate.
    + rewrite (mha_pallas_invalid A q k v mask input_mask interpret num_warps
                 num_stages B S H D q_shape q_block_len _ kvb Hplan Hneg) in Ho.
      discriminate.
  - rewrite (mha_planner_err A q k v mask input_mask interpret num_warps
               num_stages B S H D q_shape "pallas" q_block_len e Hplan) in Ho.
    discriminate.
Qed.

(** The entries of whatever the tiled backend returns. *)
Lemma mha_pallas_ok_entries (q_block_len : option Z) (o : Tensor4) :
  mha q k v mask input_mask "pallas" interpret q_block_len num_warps num_stages
  = Ok o ->
  forall b i h a, (b < B)%nat -> (i < S)%nat -> (h < H)%nat ->
    data o b i h a = tiled_entry q k v mask D S b i h a.
Proof.
  intros Ho b i h a Hb Hi Hh.
  destruct (mha_ok_inv _ _ _ Ho) as (Hm & [(_ & Hpos & ->)|(Hk & _)]);
    [|discriminate].
  destruct (divides_to_nat S _ Hpos Hm) as (Hpos' & Hdiv').
  now apply pallas_data.
Qed.

(** The entries of whatever the reference backend returns. *)
Lemma mha_reference_ok_entries (q_block_len : option Z) (o : Tensor4) :
  shape k = (B, S, H, D) -> shape v = (B, S, H, D) ->
  mha q k v mask input_mask "reference" interpret q_block_len num_warps num_stages
  = Ok o ->
  forall b i h a, data o b i h a = reference_entry q k v mask D S b i h a.
Proof.
  intros Hk Hv Ho b i h a.
  destruct (mha_ok_inv _ _ _ Ho) as (_ & [(Hk' & _)|(_ & ->)]);
    [discriminate|].
  apply (reference_data q k v mask B S H D B S H D B S H D q_shape Hk Hv).
Qed.

End Returned.

(** * The claims *)

Section Claims.

Import Row RowFacts SpecialFacts.
Local Open Scope R_scope.

(** C1, as stated, fails.  On the small input (second position padding,
    values 1 and 5) with query tiles of length 1, the tiled backend returns
    1/2 at the padded query position and the reference backend returns 3:
    the two are not within a relative tolerance of 1e-5. *)
Lemma backend_equivalence_fails_on_masked_row :
  ~ backends_agree 1e-5 ex_q ex_k ex_v ex_mask (Some 1%Z).
Proof.
  intros Hagree.
  destruct (mha_pallas_entries unit ex_q ex_k ex_v ex_mask tt false 2 2
              1 2 1 1 eq_refl (Some 1%Z) 1 2 eq_refl eq_refl eq_refl)
    as (o & Ho & _ & _ & Hd).
  destruct (mha_reference_entries unit ex_q ex_k ex_v ex_mask tt false 2 2
              1 2 1 1 eq_refl (Some 1%Z) (1, 2)%Z eq_refl eq_refl eq_refl)
    as (o' & Ho' & Hs' & Hd').
  assert (Hin : in_shape o' 0 1 0 0).
  { unfold in_shape. rewrite Hs'. simpl. lia. }
  specialize (Hagree o o' Ho Ho' 0%nat 1%nat 0%nat 0%nat Hin).
  unfold close_to in Hagree.
  rewrite Hd, Hd' in Hagree by lia.
  rewrite tiled_entry_masked_row, reference_entry_masked_row in Hagree
    by reflexivity.
  unfold zeroed in Hagree. simpl in Hagree.
  replace (/ (1 + 1) * (0 + 1 + 0) - / (1 + 1) * (0 + 1 + 5)) with (- (5 / 2))
    in Hagree by field.
  replace (/ (1 + 1) * (0 + 1 + 5)) with 3 in Hagree by field.
  rewrite Rabs_Ropp, !Rabs_pos_eq in Hagree by lra.
  lra.
Qed.

(** C1, amended.  For float32 inputs of one shape and a positive query-tile
    length that divides the sequence length, both backends return, and at
    every query position [i] that is valid the tiled output is the
    reference output up to a small tolerance.  In exact arithmetic the two
    differ by at most [exp (-1e20 - q_i . k_i)] times the sum of the
    absolute values at the invalid key positions, which is below [1e-5]
    times any bound [M] of the values as soon as [q_i . k_i] is above
    [-9e19] and the sequence is no longer than [1e14].  (Invalid query
    positions and other element types are left out, see C10.) *)
Theorem backend_equivalence_on_valid_rows
  (A : Type) (q k v : Tensor4) (mask : Mask2) (input_mask : A)
  (interpret : bool) (num_warps num_stages : Z)
  (B S H D : nat) (qb : Z) (b i h a : nat) :
  shape q = (B, S, H, D) -> shape k = (B, S, H, D) -> shape v = (B, S, H, D) ->
  mask_shape mask = (B, S) ->
  dtype q = float32 -> dtype k = float32 -> dtype v = float32 ->
  (0 < qb)%Z -> (Z.of_nat S mod qb = 0)%Z ->
  (b < B)%nat -> (i < S)%nat -> (h < H)%nat ->
  mask_data mask b i = true ->
  exists o o',
    mha q k v mask input_mask "pallas" interpret (Some qb) num_warps num_stages
    = Ok o /\
    mha q k v mask input_mask "reference" interpret (Some qb) num_warps num_stages
    = Ok o' /\
    Rabs (data o' b i h a - data o b i h a)
    <= exp (SENTINEL - sum (fun a' => data q b i h a' * data k b i h a') D)
       * sum (fun j => if mask_data mask b j then 0 else Rabs (data v b j h a)) S
    /\
    (forall M : R,
       - 9e19 <= sum (fun a' => data q b i h a' * data k b i h a') D ->
       INR S <= 1e14 ->
       (forall j, (j < S)%nat -> Rabs (data v b j h a) <= M) ->
       Rabs (data o' b i h a - data o b i h a) <= 1e-5 * M).
Proof.
  intros Hq Hk Hv _ Hdq _ _ Hpos Hdiv Hb Hi Hh Hm.
  pose proof (planner_ok (Z.of_nat S) (Some qb) Hdiv) as Hplan.
  destruct (mha_pallas_entries A q k v mask input_mask interpret num_warps
              num_stages B S H D Hq (Some qb) qb (Z.of_nat S) Hplan Hpos Hdq)
    as (o & Ho & _ & _ & Hd).
  destruct (mha_reference_entries A q k v mask input_mask interpret num_warps
              num_stages B S H D Hq (Some qb) _ Hk Hv Hplan)
    as (o' & Ho' & _ & Hd').
  exists o, o'. split; [exact Ho|]. split; [exact Ho'|].
  rewrite Hd, Hd' by assumption.
  pose proof (backends_gap q k v mask D S b i h a Hm Hi) as Hgap.
  split; [exact Hgap|].
  intros M Hs HS HM. eapply Rle_trans; [exact Hgap|].
  apply sentinel_leak_tolerance; [lia|exact Hs|exact HS|exact HM].
Qed.

Lemma backend_equivalence_on_valid_rows_witness :
  exists o o',
    mha ex_q ex_k ex_v ex_mask tt "pallas" false (Some 1%Z) 2 2 = Ok o /\
    mha ex_q ex_k ex_v ex_mask tt "reference" false (Some 1%Z) 2 2 = Ok o' /\
    Rabs (data o' 0 0 0 0 - data o 0 0 0 0)
    <= exp (SENTINEL - sum (fun a' => data ex_q 0 0 0 a' * data ex_k 0 0 0 a') 1)
       * sum (fun j => if mask_data ex_mask 0 j then 0
                       else Rabs (data ex_v 0 j 0 0)) 2
    /\
    (forall M : R,
       - 9e19 <= sum (fun a' => data ex_q 0 0 0 a' * data ex_k 0 0 0 a') 1 ->
       INR 2 <= 1e14 ->
       (forall j, (j < 2)%nat -> Rabs (data ex_v 0 j 0 0) <= M) ->
       Rabs (data o' 0 0 0 0 - data o 0 0 0 0) <= 1e-5 * M).
Proof.
  apply (backend_equivalence_on_valid_rows unit ex_q ex_k ex_v ex_mask tt false
           2 2 1 2 1 1 1 0 0 0 0);
    try reflexivity; lia.
Defined.







(** C2, as stated, fails for the reference backend.  On the small input the
    second position is padding; changing its value row from 5 to 7 changes
    the reference output at the padded query position from 3 to 4. *)
Lemma mask_exclusivity_fails_in_reference :
  mask_data ex_mask 0 1 = false /\
  differ_only_at ex_v ex_v' 0 1 /\
  exists o o',
    mha ex_q ex_k ex_v ex_mask tt "reference" false None 2 2 = Ok o /\
    mha ex_q ex_k ex_v' ex_mask tt "reference" false None 2 2 = Ok o' /\
    data o 0 1 0 0 = 3 /\ data o' 0 1 0 0 = 4 /\
    data o 0 1 0 0 <> data o' 0 1 0 0.
Proof.
  split; [reflexivity|]. split.
  { apply set_row_differs. }
  destruct (mha_reference_entries unit ex_q ex_k ex_v ex_mask tt false 2 2
              1 2 1 1 eq_refl None (2, 2)%Z eq_refl eq_refl eq_refl)
    as (o & Ho & _ & Hd).
  destruct (mha_reference_entries unit ex_q ex_k ex_v' ex_mask tt false 2 2
              1 2 1 1 eq_refl None (2, 2)%Z eq_refl eq_refl eq_refl)
    as (o' & Ho' & _ & Hd').
  exists o, o'. split; [exact Ho|]. split; [exact Ho'|].
  rewrite Hd, Hd'. rewrite !reference_entry_masked_row by reflexivity.
  simpl. repeat split; [field | field | lra].
Qed.

(** C2, amended.  Let position [j] of batch element [b] be invalid, and let
    the keys and values change in the rows of that position only.  The
    tiled backend returns the same output at every query position of [b].
    The reference backend returns the same output at every query position
    when only the keys change; when the values change too, its output at a
    valid query position [i] moves by at most [exp (-1e20 - q_i . k_i)]
    times the change of the value. *)
Theorem mask_exclusivity
  (A : Type) (q k v k' v' : Tensor4) (mask : Mask2) (input_mask : A)
  (interpret : bool) (q_block_len : option Z) (num_warps num_stages : Z)
  (B S H D : nat) (b j i h a : nat) :
  shape q = (B, S, H, D) ->
  shape k = (B, S, H, D) -> shape k' = (B, S, H, D) ->
  shape v = (B, S, H, D) -> shape v' = (B, S, H, D) ->
  (b < B)%nat -> (j < S)%nat -> (i < S)%nat -> (h < H)%nat ->
  mask_data mask b j = false ->
  differ_only_at k k' b j -> differ_only_at v v' b j ->
  agree_at
    (mha q k v mask input_mask "pallas" interpret q_block_len num_warps num_stages)
    (mha q k' v' mask input_mask "pallas" interpret q_block_len num_warps num_stages)
    b i h a /\
  agree_at
    (mha q k v mask input_mask "reference" interpret q_block_len num_warps num_stages)
    (mha q k' v mask input_mask "reference" interpret q_block_len num_warps num_stages)
    b i h a /\
  (mask_data mask b i = true ->
   match
     mha q k v mask input_mask "reference" interpret q_block_len num_warps num_stages,
     mha q k' v' mask input_mask "reference" interpret q_block_len num_warps num_stages
   with
   | Ok o, Ok o' =>
       Rabs (data o b i h a - data o' b i h a)
       <= exp (SENTINEL - sum (fun a' => data q b i h a' * data k b i h a') D)
          * Rabs (data v b j h a - data v' b j h a)
   | Err e, Err e' => e = e'
   | _, _ => False
   end).
Proof.
  intros Hq Hk Hk' Hv Hv' Hb Hj Hi Hh Hm Hdk Hdv.
  destruct (compute_q_and_kv_block_len (Z.of_nat S) q_block_len)
    as [[qb kvb]|e] eqn:Hplan.
  - split; [|split].
    + destruct (Z.ltb_spec 0 qb) as [Hpos|Hneg];
        [destruct (dtype_float32_dec (dtype q)) as [Hdt|Hdt]|].
      * destruct (mha_pallas_entries A q k v mask input_mask interpret
                    num_warps num_stages B S H D Hq q_block_len qb kvb Hplan Hpos
                    Hdt)
          as (o & -> & _ & _ & Hd).
        destruct (mha_pallas_entries A q k' v' mask input_mask interpret
                    num_warps num_stages B S H D Hq q_block_len qb kvb Hplan Hpos
                    Hdt)
          as (o' & -> & _ & _ & Hd').
        simpl. rewrite Hd, Hd' by assumption.
        apply (tiled_entry_noninterference q k v mask D S k' v' b j Hm Hdk Hdv).
      * rewrite !(mha_pallas_dtype A _ _ _ mask input_mask interpret num_warps
                    num_stages B S H D Hq q_block_len qb kvb Hplan Hpos Hdt).
        reflexivity.
      * rewrite !(mha_pallas_invalid A _ _ _ mask input_mask interpret num_warps
                    num_stages B S H D Hq q_block_len qb kvb Hplan Hneg).
        reflexivity.
    + destruct (mha_reference_entries A q k v mask input_mask interpret
                  num_warps num_stages B S H D Hq q_block_len _ Hk Hv Hplan)
        as (o & -> & _ & Hd).
      destruct (mha_reference_entries A q k' v mask input_mask interpret
                  num_warps num_stages B S H D Hq q_block_len _ Hk' Hv Hplan)
        as (o' & -> & _ & Hd').
      simpl. rewrite Hd, Hd'.
      apply (reference_entry_key_change q k v mask D S k' b j Hm Hdk).
    + intros Hmi.
      destruct (mha_reference_entries A q k v mask input_mask interpret
                  num_warps num_stages B S H D Hq q_block_len _ Hk Hv Hplan)
        as (o & -> & _ & Hd).
      destruct (mha_reference_entries A q k' v' mask input_mask interpret
                  num_warps num_stages B S H D Hq q_block_len _ Hk' Hv' Hplan)
        as (o' & -> & _ & Hd').
      rewrite Hd, Hd'.
      now apply (reference_entry_value_leak q k v mask D S k' v' b j Hm Hdk Hdv).
  - rewrite !(mha_planner_err A _ _ _ mask input_mask interpret num_warps
                num_stages B S H D Hq _ q_block_len e Hplan).
    simpl. auto.
Qed.

Lemma mask_exclusivity_witness :
  agree_at
    (mha ex_q ex_k ex_v ex_mask tt "pallas" false (Some 1%Z) 2 2)
    (mha ex_q ex_k' ex_v' ex_mask tt "pallas" false (Some 1%Z) 2 2)
    0 1 0 0 /\
  agree_at
    (mha ex_q ex_k ex_v ex_mask tt "reference" false (Some 1%Z) 2 2)
    (mha ex_q ex_k' ex_v ex_mask tt "reference" false (Some 1%Z) 2 2)
    0 1 0 0.
Proof.
  destruct (mask_exclusivity unit ex_q ex_k ex_v ex_k' ex_v' ex_mask tt false
              (Some 1%Z) 2 2 1 2 1 1 0 1 1 0 0) as (Ht & Hr & _);
    try reflexivity; try lia; try apply set_row_differs.
  split; [exact Ht | exact Hr].
Defined.

(** C3.  A kernel name other than the two accepted ones (["pallas"], the
    tiled backend, and ["reference"]) makes [mha] fail with a configuration
    error and return no output.  The failure is fixed by the sequence
    length, the block-length override and the name alone: it is the
    planner's error when the plan fails, the unknown-kernel error otherwise,
    and no kernel runs. *)
Theorem unknown_kernel_is_rejected
  (A : Type) (q k v : Tensor4) (mask : Mask2) (input_mask : A)
  (kernel : string) (interpret : bool) (q_block_len : option Z)
  (num_warps num_stages : Z) (B S H D : nat) :
  shape q = (B, S, H, D) ->
  kernel <> "pallas"%string -> kernel <> "reference"%string ->
  mha q k v mask input_mask kernel interpret q_block_len num_warps num_stages
  = (_ <- compute_q_and_kv_block_len (Z.of_nat S) q_block_len ;;
     Err (UnknownKernel kernel)) /\
  exists e,
    mha q k v mask input_mask kernel interpret q_block_len num_warps num_stages
    = Err e /\
    (e = UnknownKernel kernel \/
     compute_q_and_kv_block_len (Z.of_nat S) q_block_len = Err e).
Proof.
  intros Hq Hp Hr.
  destruct (compute_q_and_kv_block_len (Z.of_nat S) q_block_len)
    as [p|e] eqn:Hplan; simpl.
  - rewrite (mha_unknown A q k v mask input_mask interpret num_warps num_stages
               B S H D Hq kernel q_block_len p Hp Hr Hplan).
    split; [reflexivity|]. exists (UnknownKernel kernel). auto.
  - rewrite (mha_planner_err A q k v mask input_mask interpret num_warps
               num_stages B S H D Hq kernel q_block_len e Hplan).
    split; [reflexivity|]. exists e. auto.
Qed.

Lemma unknown_kernel_is_rejected_witness :
  mha ex_q ex_k ex_v ex_mask tt "tiled" false None 2 2
  = (_ <- compute_q_and_kv_block_len (Z.of_nat 2) None ;;
     Err (UnknownKernel "tiled")) /\
  exists e,
    mha ex_q ex_k ex_v ex_mask tt "tiled" false None 2 2 = Err e /\
    (e = UnknownKernel "tiled" \/
     compute_q_and_kv_block_len (Z.of_nat 2) None = Err e).
Proof.
  apply (unknown_kernel_is_rejected unit ex_q ex_k ex_v ex_mask tt "tiled"
           false None 2 2 1 2 1 1);
    [reflexivity | discriminate | discriminate].
Defined.

(** C6.  The code does not keep to it: on the small input in float16 the
    reference kernel returns NaN at the padded query position.  The
    sentinel [-1e20], written instead of minus infinity so that a fully
    masked row has a finite maximum, is minus infinity in float16; every
    score of the row is then minus infinity, the shifted scores are NaN,
    and so are the weights and the output. *)
Theorem masked_row_is_nan_in_float16 :
  dtype ex_q16 = float16 /\ mask_data ex_mask 0 1 = false /\
  (forall j, Special.reference_mha_s ex_q16 ex_k16 ex_mask 0 1 0 j = Special.NInf) /\
  Special.reference_mha_kernel ex_q16 ex_k16 ex_v16 ex_mask false 0 1 0 0
  = Special.NaN /\
  ~ Special.is_finite
      (Special.reference_mha_kernel ex_q16 ex_k16 ex_v16 ex_mask false 0 1 0 0).
Proof.
  assert (Hnan : Special.reference_mha_kernel ex_q16 ex_k16 ex_v16 ex_mask
                   false 0 1 0 0 = Special.NaN).
  { apply (special_reference_masked_row_nan ex_q16 ex_k16 ex_v16 ex_mask
             1 2 1 1 1 2 1 1 false 0 1 0 0); reflexivity || lia. }
  split; [reflexivity|]. split; [reflexivity|]. split; [|split].
  - intros j. rewrite (special_reference_s ex_q16 ex_k16 ex_mask 1 2 1 1 0 1 0 j)
      by reflexivity.
    reflexivity.
  - exact Hnan.
  - rewrite Hnan. intros [x Hx]. discriminate.
Qed.

(** C7, as stated, fails.  With a float16 query and float32 keys the
    reference backend returns an array of type float32, the type jax
    promotes the operands to, not of the type of the query. *)
Lemma reference_output_has_promoted_dtype :
  shape ex_k = shape ex_q16 /\ shape ex_v16 = shape ex_q16 /\
  exists o,
    mha ex_q16 ex_k ex_v16 ex_mask tt "reference" false None 2 2 = Ok o /\
    dtype o = float32 /\ dtype ex_q16 = float16 /\
    dtype o <> dtype ex_q16.
Proof.
  split; [reflexivity|]. split; [reflexivity|].
  exists (reference_mha_kernel ex_q16 ex_k ex_v16 ex_mask false).
  repeat split; try reflexivity. discriminate.
Qed.

(** C7, amended.  For inputs of one shape, whatever [mha] returns has the
    shape of [q]; its type is that of [q] with the tiled backend and the
    type jax promotes those of [q], [k] and [v] to with the reference
    backend, which is the type of [q] when [k] and [v] are of that type.  No
    input is changed: the launch of the device kernel, with its five
    references written back to the arrays they view, leaves the four input
    arrays as they were (the reference kernel assigns to no array). *)
Theorem output_shape_dtype_and_frame
  (A : Type) (q k v : Tensor4) (mask : Mask2) (input_mask : A)
  (kernel : string) (interpret : bool) (q_block_len : option Z)
  (num_warps num_stages : Z) (o : Tensor4) :
  shape k = shape q -> shape v = shape q ->
  mha q k v mask input_mask kernel interpret q_block_len num_warps num_stages
  = Ok o ->
  shape o = shape q /\
  dtype o = (if String.eqb kernel "pallas" then dtype q
             else promote_types (promote_types (dtype q) (dtype k)) (dtype v)) /\
  (dtype k = dtype q -> dtype v = dtype q -> dtype o = dtype q) /\
  (forall B S H D qb,
     launch_store (mha_pallas_call B S H D qb S (dtype q)) q k v mask
     = {| st_q := q; st_k := k; st_v := v; st_mask := mask;
          st_o := pallas_call (mha_pallas_call B S H D qb S (dtype q))
                    q k v mask |}).
Proof.
  intros Hk Hv Ho.
  assert (Hsd : shape o = shape q /\
    dtype o = (if String.eqb kernel "pallas" then dtype q
               else promote_types (promote_types (dtype q) (dtype k)) (dtype v))).
  { destruct (shape q) as [[[B S] H] D] eqn:Hq.
    destruct (mha_ok_inv A q k v mask input_mask interpret num_warps num_stages
                B S H D Hq kernel q_block_len o Ho)
      as (_ & [(-> & _ & ->)|(-> & ->)]).
    - now rewrite pallas_shape, pallas_dtype.
    - unfold reference_mha_kernel. rewrite Hq, Hk, Hv. simpl. auto. }
  destruct Hsd as (Hs & Hd).
  split; [exact Hs|]. split; [exact Hd|]. split.
  - intros Hdk Hdv. rewrite Hd, Hdk, Hdv.
    destruct (String.eqb kernel "pallas"); [reflexivity|].
    now destruct (dtype q).
  - intros B S H D qb. apply launch_store_frame.
Qed.

Lemma output_shape_dtype_and_frame_witness :
  shape (reference_mha_kernel ex_q16 ex_k ex_v16 ex_mask false) = shape ex_q16 /\
  dtype (reference_mha_kernel ex_q16 ex_k ex_v16 ex_mask false)
  = promote_types (promote_types (dtype ex_q16) (dtype ex_k)) (dtype ex_v16).
Proof.
  destruct (output_shape_dtype_and_frame unit ex_q16 ex_k ex_v16 ex_mask tt
              "reference" false None 2 2
              (reference_mha_kernel ex_q16 ex_k ex_v16 ex_mask false))
    as (Hs & Hd & _); try reflexivity.
  split; [exact Hs | exact Hd].
Defined.

(** C8.  The planner fails with a configuration error when the sequence
    length is not a multiple of the query block length it has chosen (the
    override, or the sequence length without one), and returns that block
    length with a key/value block length equal to the sequence length
    otherwise. *)
Theorem planner_contract (seq_len : Z) (q_block_len : option Z) :
  let qb := match q_block_len with None => seq_len | Some n => n end in
  ((seq_len mod qb <> 0)%Z ->
   compute_q_and_kv_block_len seq_len q_block_len
   = Err (BlockLenError seq_len qb)) /\
  ((seq_len mod qb = 0)%Z ->
   compute_q_and_kv_block_len seq_len q_block_len = Ok (qb, seq_len)).
Proof.
  intros qb. split; intros Hm.
  - now apply planner_err.
  - now apply planner_ok.
Qed.

Lemma planner_contract_witness :
  compute_q_and_kv_block_len 4 (Some 3%Z) = Err (BlockLenError 4 3) /\
  compute_q_and_kv_block_len 4 (Some 2%Z) = Ok (2, 4)%Z.
Proof.
  split.
  - apply (planner_contract 4 (Some 3%Z)). discriminate.
  - apply (planner_contract 4 (Some 2%Z)). reflexivity.
Defined.

(** C9.  [input_mask] is accepted, whatever it is, and ignored: two calls
    that differ in it alone have the same result, failure or output. *)
Theorem input_mask_is_ignored
  (A A' : Type) (input_mask : A) (input_mask' : A')
  (q k v : Tensor4) (mask : Mask2) (kernel : string) (interpret : bool)
  (q_block_len : option Z) (num_warps num_stages : Z) :
  mha q k v mask input_mask kernel interpret q_block_len num_warps num_stages
  = mha q k v mask input_mask' kernel interpret q_block_len num_warps num_stages.
Proof. reflexivity. Qed.

End Claims.


(** * Further properties of the kernels and of the entry point *)

(** ** Softmax weights *)

Module WeightFacts.

Import Row RowFacts.
Local Open Scope R_scope.

Lemma sum_pos (f : nat -> R) (n : nat) :
  (0 < n)%nat -> (forall j, (j < n)%nat -> 0 < f j) -> 0 < sum f n.
Proof.
  intros Hn Hf. destruct n as [|n]; [lia|].
  eapply Rlt_le_trans; [apply (Hf n); lia|].
  apply sum_ge_term; [|lia]. intros j Hj. left. now apply Hf.
Qed.

Lemma softmax_pos (s : nat -> R) (n j : nat) :
  (0 < n)%nat -> 0 < softmax s n j.
Proof.
  intros Hn. unfold softmax. apply Rdiv_lt_0_compat.
  - apply exp_pos.
  - now apply softmax_denominator_pos.
Qed.

Lemma softmax_sum_one (s : nat -> R) (n : nat) :
  (0 < n)%nat -> sum (softmax s n) n = 1.
Proof.
  intros Hn. unfold softmax.
  set (m := max s n). set (d := sum (fun j' => exp (s j' - m)) n).
  assert (Hd : 0 < d) by now apply softmax_denominator_pos.
  rewrite (sum_ext _ (fun j => / d * exp (s j - m)) n)
    by (intros; unfold Rdiv; apply Rmult_comm).
  rewrite sum_scal. fold d. field. lra.
Qed.

(** Subtracting the maximum changes no weight. *)
Lemma softmax_textbook (s : nat -> R) (n j : nat) :
  (0 < n)%nat ->
  softmax s n j = exp (s j) / sum (fun j' => exp (s j')) n.
Proof.
  intros Hn. unfold softmax. set (m := max s n).
  assert (Hs : 0 < sum (fun j' => exp (s j')) n)
    by (apply sum_pos; [exact Hn|intros; apply exp_pos]).
  assert (Hm : 0 < exp (- m)) by apply exp_pos.
  rewrite (sum_ext _ (fun j' => exp (- m) * exp (s j')) n).
  - rewrite sum_scal. replace (s j - m) with (- m + s j) by lra.
    rewrite exp_plus. field. split; lra.
  - intros j' _. replace (s j' - m) with (- m + s j') by lra. apply exp_plus.
Qed.

(** A softmax-weighted sum stays within the bound of its terms. *)
Lemma weighted_sum_bound (s x : nat -> R) (n : nat) (M : R) :
  (0 < n)%nat -> (forall j, (j < n)%nat -> Rabs (x j) <= M) ->
  Rabs (sum (fun j => softmax s n j * x j) n) <= M.
Proof.
  intros Hn Hx.
  eapply Rle_trans; [apply sum_abs|].
  apply Rle_trans with (sum (fun j => M * softmax s n j) n).
  - apply sum_le. intros j Hj. rewrite Rabs_mult.
    rewrite (Rabs_pos_eq (softmax s n j)) by (apply softmax_nonneg; lia).
    rewrite Rmult_comm. apply Rmult_le_compat_r; [|now apply Hx].
    now apply softmax_nonneg.
  - rewrite sum_scal, softmax_sum_one by exact Hn. lra.
Qed.

Lemma sum_plus (f g : nat -> R) (n : nat) :
  sum (fun j => f j + g j) n = sum f n + sum g n.
Proof.
  induction n as [|n IH]; simpl.
  - lra.
  - rewrite IH. lra.
Qed.

End WeightFacts.


(** ** Entries under changed inputs *)

Section EntryFacts.

Import Row RowFacts WeightFacts.
Local Open Scope R_scope.

Variables (q k v : Tensor4) (mask : Mask2).
Variables (D S : nat).

Lemma weighted_sum_linear (p x y : nat -> R) (alpha beta : R) (n : nat) :
  sum (fun j => p j * (alpha * x j + beta * y j)) n
  = alpha * sum (fun j => p j * x j) n + beta * sum (fun j => p j * y j) n.
Proof.
  rewrite <- !sum_scal, <- sum_plus. apply sum_ext. intros j _. ring.
Qed.

Lemma tiled_entry_linear (v' : Tensor4) (alpha beta : R) (b i h a : nat) :
  tiled_entry q k (lin_comb alpha beta v v') mask D S b i h a
  = alpha * tiled_entry q k v mask D S b i h a
    + beta * tiled_entry q k v' mask D S b i h a.
Proof.
  unfold tiled_entry. rewrite <- weighted_sum_linear.
  apply sum_ext. intros j _. f_equal. unfold zeroed. simpl.
  destruct (mask_data mask b j); ring.
Qed.

Lemma reference_entry_linear (v' : Tensor4) (alpha beta : R) (b i h a : nat) :
  reference_entry q k (lin_comb alpha beta v v') mask D S b i h a
  = alpha * reference_entry q k v mask D S b i h a
    + beta * reference_entry q k v' mask D S b i h a.
Proof.
  unfold reference_entry. rewrite <- weighted_sum_linear. reflexivity.
Qed.

Lemma tiled_entry_bound (M : R) (b i h a : nat) :
  (0 < S)%nat -> (forall j, (j < S)%nat -> Rabs (data v b j h a) <= M) ->
  Rabs (tiled_entry q k v mask D S b i h a) <= M.
Proof.
  intros HS Hv. apply weighted_sum_bound; [exact HS|].
  intros j Hj. unfold zeroed. destruct (mask_data mask b j).
  - now apply Hv.
  - rewrite Rabs_R0. eapply Rle_trans; [apply Rabs_pos|apply (Hv j Hj)].
Qed.

Lemma reference_entry_bound (M : R) (b i h a : nat) :
  (0 < S)%nat -> (forall j, (j < S)%nat -> Rabs (data v b j h a) <= M) ->
  Rabs (reference_entry q k v mask D S b i h a) <= M.
Proof.
  intros HS Hv. now apply weighted_sum_bound.
Qed.

Variables (q' k' v' : Tensor4) (mask' : Mask2) (b i h a : nat).
Hypothesis i_lt : (i < S)%nat.
Hypothesis q_same : forall a', (a' < D)%nat -> data q b i h a' = data q' b i h a'.
Hypothesis k_same :
  forall j a', (j < S)%nat -> (a' < D)%nat -> data k b j h a' = data k' b j h a'.
Hypothesis v_same : forall j, (j < S)%nat -> data v b j h a = data v' b j h a.
Hypothesis mask_same :
  forall j, (j < S)%nat -> mask_data mask b j = mask_data mask' b j.

Lemma masked_dot_local (j : nat) :
  (j < S)%nat ->
  masked_dot q k mask D b i h j = masked_dot q' k' mask' D b i h j.
Proof.
  intros Hj. unfold masked_dot.
  rewrite (mask_same i i_lt), (mask_same j Hj).
  destruct (_ && _); [|reflexivity].
  apply sum_ext. intros a' Ha'.
  now rewrite (q_same a' Ha'), (k_same j a' Hj Ha').
Qed.

Lemma tiled_entry_local :
  tiled_entry q k v mask D S b i h a = tiled_entry q' k' v' mask' D S b i h a.
Proof.
  rewrite !tiled_entry_masked_dot. apply sum_ext. intros j Hj.
  unfold zeroed. rewrite (mask_same j Hj), (v_same j Hj). f_equal.
  apply softmax_ext; [|exact Hj]. intros j' Hj'. now apply masked_dot_local.
Qed.

Lemma reference_entry_local :
  reference_entry q k v mask D S b i h a
  = reference_entry q' k' v' mask' D S b i h a.
Proof.
  rewrite !reference_entry_masked_dot. apply sum_ext. intros j Hj.
  rewrite (v_same j Hj). f_equal.
  apply softmax_ext; [|exact Hj]. intros j' Hj'. now apply masked_dot_local.
Qed.

End EntryFacts.

(** Two calls with the same options agree at an entry as soon as the
    entry-wise descriptions of both backends do. *)
Lemma agree_at_from_entries
  (A : Type) (q k v q' k' v' : Tensor4) (mask mask' : Mask2) (input_mask : A)
  (kernel : string) (interpret : bool) (q_block_len : option Z)
  (num_warps num_stages : Z) (B S H D : nat) (b i h a : nat) :
  shape q = (B, S, H, D) -> shape k = (B, S, H, D) -> shape v = (B, S, H, D) ->
  shape q' = (B, S, H, D) -> shape k' = (B, S, H, D) -> shape v' = (B, S, H, D) ->
  dtype q' = dtype q ->
  b < B -> i < S -> h < H ->
  tiled_entry q k v mask D S b i h a = tiled_entry q' k' v' mask' D S b i h a ->
  reference_entry q k v mask D S b i h a
  = reference_entry q' k' v' mask' D S b i h a ->
  agree_at
    (mha q k v mask input_mask kernel interpret q_block_len num_warps num_stages)
    (mha q' k' v' mask' input_mask kernel interpret q_block_len num_warps
       num_stages)
    b i h a.
Proof.
  intros Hq Hk Hv Hq' Hk' Hv' Hdq Hb Hi Hh Et Er.
  destruct (compute_q_and_kv_block_len (Z.of_nat S) q_block_len)
    as [[qb kvb]|e] eqn:Hplan.
  - destruct (String.eqb_spec kernel "pallas") as [->|Hp].
    + destruct (Z.ltb_spec 0 qb) as [Hpos|Hneg];
        [destruct (SpecialFacts.dtype_float32_dec (dtype q)) as [Hdt|Hdt]|].
      * destruct (mha_pallas_entries A q k v mask input_mask interpret
                    num_warps num_stages B S H D Hq q_block_len qb kvb Hplan Hpos
                    Hdt)
          as (o & -> & _ & _ & Hd).
        destruct (mha_pallas_entries A q' k' v' mask' input_mask interpret
                    num_warps num_stages B S H D Hq' q_block_len qb kvb Hplan Hpos
                    (eq_trans Hdq Hdt))
          as (o' & -> & _ & _ & Hd').
        simpl. now rewrite Hd, Hd' by assumption.
      * rewrite (mha_pallas_dtype A q k v mask input_mask interpret num_warps
                   num_stages B S H D Hq q_block_len qb kvb Hplan Hpos Hdt).
        rewrite (mha_pallas_dtype A q' k' v' mask' input_mask interpret
                   num_warps num_stages B S H D Hq' q_block_len qb kvb Hplan Hpos).
        -- reflexivity.
        -- now rewrite Hdq.
      * rewrite (mha_pallas_invalid A q k v mask input_mask interpret num_warps
                   num_stages B S H D Hq q_block_len qb kvb Hplan Hneg).
        rewrite (mha_pallas_invalid A q' k' v' mask' input_mask interpret
                   num_warps num_stages B S H D Hq' q_block_len qb kvb Hplan Hneg).
        reflexivity.
    + destruct (String.eqb_spec kernel "reference") as [->|Hr].
      * destruct (mha_reference_entries A q k v mask input_mask interpret
                    num_warps num_stages B S H D Hq q_block_len _ Hk Hv Hplan)
          as (o & -> & _ & Hd).
        destruct (mha_reference_entries A q' k' v' mask' input_mask interpret
                    num_warps num_stages B S H D Hq' q_block_len _ Hk' Hv' Hplan)
          as (o' & -> & _ & Hd').
        simpl. now rewrite Hd, Hd'.
      * rewrite (mha_unknown A q k v mask input_mask interpret num_warps
                   num_stages B S H D Hq kernel q_block_len _ Hp Hr Hplan).
        rewrite (mha_unknown A q' k' v' mask' input_mask interpret num_warps
                   num_stages B S H D Hq' kernel q_block_len _ Hp Hr Hplan).
        reflexivity.
  - rewrite (mha_planner_err A q k v mask input_mask interpret num_warps
               num_stages B S H D Hq kernel q_block_len e Hplan).
    rewrite (mha_planner_err A q' k' v' mask' input_mask interpret num_warps
               num_stages B S H D Hq' kernel q_block_len e Hplan).
    reflexivity.
Qed.

(** ** Properties of the entry point and of the kernel *)

Section Extras.

Import Row RowFacts WeightFacts.
Local Open Scope R_scope.

(** X2.  Whatever either backend returns is bounded by the values it
    averages, as long as the scores are of a type that holds the sentinel
    (any but float16): when the entries of feature [a] of the value rows of
    head [h] of batch element [b] are at most [M] in absolute value, so is
    the output at [(b, i, h, a)], whatever the queries, the keys and the
    mask. *)
Theorem outputs_bounded_by_values
  (A : Type) (q k v : Tensor4) (mask : Mask2) (input_mask : A)
  (kernel : string) (interpret : bool) (q_block_len : option Z)
  (num_warps num_stages : Z) (B S H D : nat) (o : Tensor4)
  (b i h a : nat) (M : R) :
  shape q = (B, S, H, D) -> shape k = (B, S, H, D) -> shape v = (B, S, H, D) ->
  promote_types (dtype q) (dtype k) <> float16 ->
  (b < B)%nat -> (i < S)%nat -> (h < H)%nat ->
  (forall j, (j < S)%nat -> Rabs (data v b j h a) <= M) ->
  mha q k v mask input_mask kernel interpret q_block_len num_warps num_stages
  = Ok o ->
  Rabs (data o b i h a) <= M.
Proof.
  intros Hq Hk Hv _ Hb Hi Hh HM Ho.
  destruct (mha_ok_inv A q k v mask input_mask interpret num_warps num_stages
              B S H D Hq kernel q_block_len o Ho) as (_ & [(-> & _)|(-> & _)]).
  - rewrite (mha_pallas_ok_entries A q k v mask input_mask interpret num_warps
               num_stages B S H D Hq q_block_len o Ho) by assumption.
    apply tiled_entry_bound; [lia|exact HM].
  - rewrite (mha_reference_ok_entries A q k v mask input_mask interpret
               num_warps num_stages B S H D Hq q_block_len o Hk Hv Ho).
    apply reference_entry_bound; [lia|exact HM].
Qed.


(** X4.  The tiled backend returns the same output for every query tile
    length it accepts, and for every pipelining hint and interpret flag: two
    calls on the same arrays that both return agree at every entry. *)
Theorem tile_length_independence
  (A : Type) (q k v : Tensor4) (mask : Mask2) (input_mask : A)
  (interpret interpret' : bool) (q_block_len q_block_len' : option Z)
  (num_warps num_stages num_warps' num_stages' : Z)
  (B S H D : nat) (o o' : Tensor4) (b i h a : nat) :
  shape q = (B, S, H, D) ->
  (b < B)%nat -> (i < S)%nat -> (h < H)%nat ->
  mha q k v mask input_mask "pallas" interpret q_block_len num_warps num_stages
  = Ok o ->
  mha q k v mask input_mask "pallas" interpret' q_block_len' num_warps'
    num_stages' = Ok o' ->
  data o b i h a = data o' b i h a.
Proof.
  intros Hq Hb Hi Hh Ho Ho'.
  rewrite (mha_pallas_ok_entries A q k v mask input_mask interpret num_warps
             num_stages B S H D Hq q_block_len o Ho) by assumption.
  rewrite (mha_pallas_ok_entries A q k v mask input_mask interpret' num_warps'
             num_stages' B S H D Hq q_block_len' o' Ho') by assumption.
  reflexivity.
Qed.

(** X5.  Without padding in the batch element (every position valid) the
    two backends return exactly the same entries, and these are plain
    softmax attention: the values weighted by [exp (q_i . k_j)], normalised
    over the keys. *)
Theorem no_padding_is_plain_attention
  (A : Type) (q k v : Tensor4) (mask : Mask2) (input_mask : A)
  (interpret : bool) (q_block_len : option Z) (num_warps num_stages : Z)
  (B S H D : nat) (o o' : Tensor4) (b i h a : nat) :
  shape q = (B, S, H, D) -> shape k = (B, S, H, D) -> shape v = (B, S, H, D) ->
  (b < B)%nat -> (i < S)%nat -> (h < H)%nat ->
  (forall j, (j < S)%nat -> mask_data mask b j = true) ->
  mha q k v mask input_mask "pallas" interpret q_block_len num_warps num_stages
  = Ok o ->
  mha q k v mask input_mask "reference" interpret q_block_len num_warps num_stages
  = Ok o' ->
  let q_dot_k := fun j => sum (fun a' => data q b i h a' * data k b j h a') D in
  data o b i h a = data o' b i h a /\
  data o' b i h a
  = sum (fun j => exp (q_dot_k j) * data v b j h a) S
    / sum (fun j => exp (q_dot_k j)) S.
Proof.
  intros Hq Hk Hv Hb Hi Hh Hm Ho Ho' q_dot_k.
  rewrite (mha_pallas_ok_entries A q k v mask input_mask interpret num_warps
             num_stages B S H D Hq q_block_len o Ho) by assumption.
  rewrite (mha_reference_ok_entries A q k v mask input_mask interpret
             num_warps num_stages B S H D Hq q_block_len o' Hk Hv Ho').
  rewrite tiled_entry_masked_dot, reference_entry_masked_dot.
  assert (HS : (0 < S)%nat) by lia.
  assert (Hpos : 0 < sum (fun j => exp (q_dot_k j)) S)
    by (apply sum_pos; [exact HS|intros; apply exp_pos]).
  split.
  - apply sum_ext. intros j Hj. unfold zeroed. now rewrite (Hm j Hj).
  - rewrite (sum_ext _ (fun j => / sum (fun j' => exp (q_dot_k j')) S
                                 * (exp (q_dot_k j) * data v b j h a)) S).
    + rewrite sum_scal. field. lra.
    + intros j Hj. rewrite softmax_textbook by exact HS.
      rewrite (sum_ext (fun j' => exp (masked_dot q k mask D b i h j'))
                 (fun j' => exp (q_dot_k j')) S).
      * unfold masked_dot. rewrite (Hm i Hi), (Hm j Hj). simpl.
        fold (q_dot_k j). field. lra.
      * intros j' Hj'. unfold masked_dot.
        now rewrite (Hm i Hi), (Hm j' Hj').
Qed.

(** X7.  The instances of the launch of [mha] may run in any order and on
    any initial contents of the output array: every entry of the output is
    written by the one instance that covers it, which does not read the
    output. *)
Theorem launch_order_independence
  (q k v : Tensor4) (mask : Mask2) (B S H D qb : nat) (dt : DType)
  (l : list GridCoord) (o0 : Tensor4) (b i h a : nat) :
  (0 < qb)%nat -> (S mod qb = 0)%nat ->
  (b < B)%nat -> (i < S)%nat -> (h < H)%nat ->
  let pc := mha_pallas_call B S H D qb S dt in
  Permutation (grid_coords (pc_grid pc)) l ->
  data (fold_left (run_instance pc q k v mask) l o0) b i h a
  = data (pallas_call pc q k v mask) b i h a.
Proof.
  intros Hpos Hmod Hb Hi Hh pc Hperm.
  assert (Hdiv : exists n, S = (n * qb)%nat).
  { exists (S / qb)%nat. rewrite Nat.mul_comm. now apply Nat.Div0.div_exact. }
  unfold pc. rewrite (pallas_data q k v mask B S H D qb dt Hpos Hdiv) by assumption.
  rewrite (Launch.fold_data (run_instance pc q k v mask)
             (in_block (pc_out_spec pc)) (instance_tile q k v mask pc)
             (run_instance_data q k v mask B S H D qb dt)
             l o0 (mkCoord b (i / qb) h)).
  - pose proof (covering_exists B S H D qb dt Hpos Hdiv b i h Hb Hi Hh) as Hex.
    apply existsb_exists in Hex. destruct Hex as (c & Hin & Hcov).
    assert (Hex' : existsb (fun c => in_block (pc_out_spec pc) c b i h) l = true).
    { apply existsb_exists. exists c. split; [|exact Hcov].
      now apply (Permutation_in c Hperm). }
    rewrite Hex'.
    now apply (instance_tile_entry q k v mask B S H D qb dt Hpos Hdiv).
  - intros c Hin. apply (covering_unique B S H D qb dt Hpos Hdiv).
    apply (Permutation_in c (Permutation_sym Hperm) Hin).
Qed.

(** X8.  Either backend is linear in the values: on the combination
    [alpha * v + beta * v'] of two value arrays the output is the same
    combination of the outputs on [v] and on [v'] (the weights do not
    depend on the values). *)
Theorem output_linear_in_values
  (A : Type) (q k v v' : Tensor4) (mask : Mask2) (input_mask : A)
  (kernel : string) (interpret : bool) (q_block_len : option Z)
  (num_warps num_stages : Z) (B S H D : nat) (alpha beta : R)
  (o o' o'' : Tensor4) (b i h a : nat) :
  shape q = (B, S, H, D) -> shape k = (B, S, H, D) ->
  shape v = (B, S, H, D) -> shape v' = (B, S, H, D) ->
  (b < B)%nat -> (i < S)%nat -> (h < H)%nat ->
  mha q k v mask input_mask kernel interpret q_block_len num_warps num_stages
  = Ok o ->
  mha q k v' mask input_mask kernel interpret q_block_len num_warps num_stages
  = Ok o' ->
  mha q k (lin_comb alpha beta v v') mask input_mask kernel interpret
    q_block_len num_warps num_stages = Ok o'' ->
  data o'' b i h a = alpha * data o b i h a + beta * data o' b i h a.
Proof.
  intros Hq Hk Hv Hv' Hb Hi Hh Ho Ho' Ho''.
  destruct (mha_ok_inv A q k v mask input_mask interpret num_warps num_stages
              B S H D Hq kernel q_block_len o Ho) as (_ & [(-> & _)|(-> & _)]).
  - rewrite (mha_pallas_ok_entries A q k v mask input_mask interpret num_warps
               num_stages B S H D Hq q_block_len o Ho) by assumption.
    rewrite (mha_pallas_ok_entries A q k v' mask input_mask interpret num_warps
               num_stages B S H D Hq q_block_len o' Ho') by assumption.
    rewrite (mha_pallas_ok_entries A q k (lin_comb alpha beta v v') mask
               input_mask interpret num_warps num_stages B S H D Hq q_block_len
               o'' Ho'') by assumption.
    apply tiled_entry_linear.
  - rewrite (mha_reference_ok_entries A q k v mask input_mask interpret
               num_warps num_stages B S H D Hq q_block_len o Hk Hv Ho).
    rewrite (mha_reference_ok_entries A q k v' mask input_mask interpret
               num_warps num_stages B S H D Hq q_block_len o' Hk Hv' Ho').
    rewrite (mha_reference_ok_entries A q k (lin_comb alpha beta v v') mask
               input_mask interpret num_warps num_stages B S H D Hq q_block_len
               o'' Hk Hv Ho'').
    apply reference_entry_linear.
Qed.

(** X9.  The query rows at an invalid position reach no entry of the
    output, with either backend: two calls that differ only in the query
    rows of an invalid position [j] of batch element [b] (the two queries
    being of one type) have the same result at every entry. *)
Theorem masked_queries_do_not_matter
  (A : Type) (q q' k v : Tensor4) (mask : Mask2) (input_mask : A)
  (kernel : string) (interpret : bool) (q_block_len : option Z)
  (num_warps num_stages : Z) (B S H D : nat) (b j b' i h a : nat) :
  shape q = (B, S, H, D) -> shape q' = (B, S, H, D) ->
  shape k = (B, S, H, D) -> shape v = (B, S, H, D) ->
  dtype q' = dtype q ->
  (b' < B)%nat -> (i < S)%nat -> (h < H)%nat ->
  mask_data mask b j = false ->
  differ_only_at q q' b j ->
  agree_at
    (mha q k v mask input_mask kernel interpret q_block_len num_warps num_stages)
    (mha q' k v mask input_mask kernel interpret q_block_len num_warps num_stages)
    b' i h a.
Proof.
  intros Hq Hq' Hk Hv Hdq Hb Hi Hh Hm Hd.
  apply (agree_at_from_entries A q k v q' k v mask mask input_mask kernel
           interpret q_block_len num_warps num_stages B S H D b' i h a);
    try assumption.
  - destruct (Nat.eq_dec b' b) as [->|Hnb]; [destruct (Nat.eq_dec i j) as [->|Hni]|].
    + now rewrite !tiled_entry_masked_row.
    + apply tiled_entry_local; auto.
    + apply tiled_entry_local; auto.
  - destruct (Nat.eq_dec b' b) as [->|Hnb]; [destruct (Nat.eq_dec i j) as [->|Hni]|].
    + now rewrite !reference_entry_masked_row.
    + apply reference_entry_local; auto.
    + apply reference_entry_local; auto.
Qed.

(** X10.  When the value rows at the invalid positions of a batch element
    are zero, the two backends return exactly the same entries for it, at
    valid and at invalid query positions alike. *)
Theorem zero_padded_values_backends_agree
  (A : Type) (q k v : Tensor4) (mask : Mask2) (input_mask : A)
  (interpret : bool) (q_block_len : option Z) (num_warps num_stages : Z)
  (B S H D : nat) (o o' : Tensor4) (b i h a : nat) :
  shape q = (B, S, H, D) -> shape k = (B, S, H, D) -> shape v = (B, S, H, D) ->
  (b < B)%nat -> (i < S)%nat -> (h < H)%nat ->
  (forall j, (j < S)%nat -> mask_data mask b j = false -> data v b j h a = 0) ->
  mha q k v mask input_mask "pallas" interpret q_block_len num_warps num_stages
  = Ok o ->
  mha q k v mask input_mask "reference" interpret q_block_len num_warps num_stages
  = Ok o' ->
  data o b i h a = data o' b i h a.
Proof.
  intros Hq Hk Hv Hb Hi Hh Hz Ho Ho'.
  rewrite (mha_pallas_ok_entries A q k v mask input_mask interpret num_warps
             num_stages B S H D Hq q_block_len o Ho) by assumption.
  rewrite (mha_reference_ok_entries A q k v mask input_mask interpret
             num_warps num_stages B S H D Hq q_block_len o' Hk Hv Ho').
  rewrite tiled_entry_masked_dot, reference_entry_masked_dot.
  apply sum_ext. intros j Hj. f_equal. unfold zeroed.
  destruct (mask_data mask b j) eqn:Hmj; [reflexivity|].
  symmetry. now apply Hz.
Qed.

(** ** The properties above on the small input *)

Lemma outputs_bounded_by_values_witness :
  Rabs (data (reference_mha_kernel ex_q ex_k ex_v ex_mask false) 0 1 0 0) <= 5.
Proof.
  apply (outputs_bounded_by_values unit ex_q ex_k ex_v ex_mask tt "reference"
           false None 2 2 1 2 1 1
           (reference_mha_kernel ex_q ex_k ex_v ex_mask false) 0 1 0 0 5);
    try reflexivity; try lia; try discriminate.
  intros j Hj. destruct j as [|[|j]]; simpl;
    [rewrite Rabs_pos_eq; lra | rewrite Rabs_pos_eq; lra | lia].
Defined.


Lemma tile_length_independence_witness :
  data (pallas_call (mha_pallas_call 1 2 1 1 1 2 float32)
          ex_q ex_k ex_v ex_mask) 0 1 0 0
  = data (pallas_call (mha_pallas_call 1 2 1 1 2 2 float32)
            ex_q ex_k ex_v ex_mask) 0 1 0 0.
Proof.
  apply (tile_length_independence unit ex_q ex_k ex_v ex_mask tt false true
           (Some 1%Z) None 2 2 4 3 1 2 1 1);
    try reflexivity; lia.
Defined.

Lemma no_padding_is_plain_attention_witness :
  let o := pallas_call (mha_pallas_call 1 2 1 1 1 2 float32)
             ex_q ex_k ex_v ex_full_mask in
  let o' := reference_mha_kernel ex_q ex_k ex_v ex_full_mask false in
  let q_dot_k := fun j => sum (fun a' => data ex_q 0 0 0 a' * data ex_k 0 j 0 a') 1 in
  data o 0 0 0 0 = data o' 0 0 0 0 /\
  data o' 0 0 0 0
  = sum (fun j => exp (q_dot_k j) * data ex_v 0 j 0 0) 2
    / sum (fun j => exp (q_dot_k j)) 2.
Proof.
  apply (no_padding_is_plain_attention unit ex_q ex_k ex_v ex_full_mask tt
           false (Some 1%Z) 2 2 1 2 1 1);
    try reflexivity; lia.
Defined.

Lemma launch_order_independence_witness :
  let pc := mha_pallas_call 1 2 1 1 1 2 float32 in
  data (fold_left (run_instance pc ex_q ex_k ex_v ex_mask)
          (rev (grid_coords (pc_grid pc))) ex_v) 0 1 0 0
  = data (pallas_call pc ex_q ex_k ex_v ex_mask) 0 1 0 0.
Proof.
  apply (launch_order_independence ex_q ex_k ex_v ex_mask 1 2 1 1 1 float32
           (rev (grid_coords (pc_grid (mha_pallas_call 1 2 1 1 1 2 float32))))
           ex_v 0 1 0 0);
    try reflexivity; try lia.
  apply Permutation_rev.
Defined.

Lemma output_linear_in_values_witness :
  data (reference_mha_kernel ex_q ex_k (lin_comb 2 3 ex_v ex_v') ex_mask false)
    0 0 0 0
  = 2 * data (reference_mha_kernel ex_q ex_k ex_v ex_mask false) 0 0 0 0
    + 3 * data (reference_mha_kernel ex_q ex_k ex_v' ex_mask false) 0 0 0 0.
Proof.
  apply (output_linear_in_values unit ex_q ex_k ex_v ex_v' ex_mask tt
           "reference" false None 2 2 1 2 1 1 2 3);
    try reflexivity; lia.
Defined.

Lemma masked_queries_do_not_matter_witness :
  agree_at
    (mha ex_q ex_k ex_v ex_mask tt "reference" false None 2 2)
    (mha ex_q' ex_k ex_v ex_mask tt "reference" false None 2 2)
    0 1 0 0.
Proof.
  apply (masked_queries_do_not_matter unit ex_q ex_q' ex_k ex_v ex_mask tt
           "reference" false None 2 2 1 2 1 1 0 1 0 1 0 0);
    try reflexivity; try lia.
  apply set_row_differs.
Defined.

Lemma zero_padded_values_backends_agree_witness :
  data (pallas_call (mha_pallas_call 1 2 1 1 1 2 float32)
          ex_q ex_k ex_v0 ex_mask) 0 1 0 0
  = data (reference_mha_kernel ex_q ex_k ex_v0 ex_mask false) 0 1 0 0.
Proof.
  apply (zero_padded_values_backends_agree unit ex_q ex_k ex_v0 ex_mask tt
           false (Some 1%Z) 2 2 1 2 1 1);
    try reflexivity; try lia.
  intros j Hj Hm. destruct j as [|[|j]]; [discriminate | reflexivity | lia].
Defined.

End Extras.
